(** * RpcDataProviderRemote: the remote half of the RPC data-provider bridge

    A shallow embedding of [RpcDataProviderRemote] (the class whose
    constructor registers the [initialize], [getMessages] and [close]
    handlers on an [Rpc] channel) together with the properties of the
    handlers.

    Conventions of the embedding
    - A JavaScript function that can throw (or an [async] function that
      can reject) returns a [Completion]: [Returned v] or [Threw e].
    - The mutable surroundings are threaded explicitly: the [World]
      holds what has been sent on the channel ([rpc]) and the state of
      the hosting environment ([env], the objects of the provider tree).
      The closure variable [provider] is the bridge's own state
      ([Remote]).
    - A call of a provider method followed by [await] is one atomic
      step of the [World].
    - The constructor's call [setupWorker(rpc)] belongs to another
      module and is outside the embedding. *)

From Stdlib Require Import ZArith Ascii.
From stdpp Require Import base option list strings gmap.

Set Default Proof Using "Type".

(** ** JavaScript values *)

(** Untyped data ([any]): descriptors, metadata, callback payloads. *)
#[warnings="-register-all"] Inductive JsValue : Type :=
  | JsNum (z : Z)
  | JsStr (s : string)
  | JsObj (fields : list (string * JsValue)).

(** A field that may hold [undefined], [null], or a value. *)
Inductive Nullable (A : Type) : Type :=
  | js_undefined
  | js_null
  | js_some (a : A).
Arguments js_undefined {A}.
Arguments js_null {A}.
Arguments js_some {A} a.

(** [x == null]: true of both [null] and [undefined]. *)
Definition is_nullish {A} (x : Nullable A) : bool :=
  match x with
  | js_some _ => false
  | _ => true
  end.

(** [x ?? d] *)
Definition nullish_coalesce {A} (x : Nullable A) (d : A) : A :=
  match x with
  | js_some a => a
  | _ => d
  end.

Record JsError : Type := { err_name : string; err_message : string }.

(** [new Error(message)] *)
Definition new_Error (message : string) : JsError :=
  {| err_name := "Error"; err_message := message |}.

(** The error of reading a property of [undefined]. *)
Definition TypeError_undefined (property : string) : JsError :=
  {| err_name := "TypeError";
     err_message := "Cannot read properties of undefined (reading '" +:+ property +:+ "')" |}.

Inductive Completion (A : Type) : Type :=
  | Returned (a : A)
  | Threw (e : JsError).
Arguments Returned {A} a.
Arguments Threw {A} e.

(** ** Messages *)

Record Time : Type := { sec : Z; nsec : Z }.

(** An [ArrayBuffer] object, known by its identity. The bridge never
    reads the bytes; a JavaScript [Set] compares objects by reference. *)
Inductive ArrayBuffer : Type := ArrayBufferRef (id : nat).

#[global] Instance ArrayBuffer_eq_dec : EqDecision ArrayBuffer.
Proof. solve_decision. Defined.

Record TypedMessage (T : Type) : Type :=
  { topic : string; receiveTime : Time; message : T }.
Arguments topic {T} _.
Arguments receiveTime {T} _.
Arguments message {T} _.

(** A raw record: its payload is the buffer that holds the bytes. *)
Abbreviation Message := (TypedMessage ArrayBuffer).

(** What [provider.getMessages] resolves with. *)
Record GetMessagesResult : Type :=
  { parsedMessages : Nullable (list (TypedMessage JsValue));
    rosBinaryMessages : Nullable (list Message);
    bobjects : Nullable (list (TypedMessage JsValue)) }.

(** The object literal passed as third argument of
    [provider.getMessages]: field name to topic list. *)
Abbreviation GetMessagesTopics := (gmap string (list string)).

(** What the [getMessages] handler returns:
    [{ messages, [Rpc.transferrables]: ... }]. *)
Record GetMessagesReply : Type :=
  { messages : list Message; transferrables : list ArrayBuffer }.

(** ** The channel and the world *)

Record RpcMessage : Type := { rpc_topic : string; rpc_data : JsValue }.

Record World (Env : Type) : Type :=
  { rpc : list RpcMessage;   (* what [rpc.send] has put on the channel, oldest first *)
    env : Env }.
Arguments rpc {Env} _.
Arguments env {Env} _.
Arguments Build_World {Env} _ _.

(** [rpc.send(topic, data)]. The promise it returns is not modelled. *)
Definition rpc_send {Env} (topic : string) (data : JsValue) (w : World Env) : World Env :=
  {| rpc := rpc w ++ [ {| rpc_topic := topic; rpc_data := data |} ]; env := env w |}.

Definition set_env {Env} (w : World Env) (e : Env) : World Env :=
  {| rpc := rpc w; env := e |}.

(** ** Extension point and provider *)

Record ExtensionPoint (Env : Type) : Type :=
  { progressCallback : JsValue → World Env → World Env;
    reportMetadataCallback : JsValue → World Env → World Env;
    notifyPlayerManager : JsValue → World Env → World Env }.
Arguments progressCallback {Env} _ _ _.
Arguments reportMetadataCallback {Env} _ _ _.
Arguments notifyPlayerManager {Env} _ _ _.
Arguments Build_ExtensionPoint {Env} _ _ _.

Record DataProvider (Env : Type) : Type :=
  { initialize : ExtensionPoint Env → World Env → Completion JsValue * World Env;
    getMessages : Time → Time → GetMessagesTopics → World Env →
                  Completion GetMessagesResult * World Env;
    close : World Env → Completion unit * World Env }.
Arguments initialize {Env} _ _ _.
Arguments getMessages {Env} _ _ _ _ _.
Arguments close {Env} _ _.
Arguments Build_DataProvider {Env} _ _ _.

(** [let provider: DataProvider;] -- [None] while it is [undefined]. *)
Record Remote (Env : Type) : Type := { provider : option (DataProvider Env) }.
Arguments provider {Env} _.
Arguments Build_Remote {Env} _.

Inductive Slot : Type := slot_progress | slot_metadata | slot_notify.

Definition slot_type (k : Slot) : string :=
  match k with
  | slot_progress => "progressCallback"
  | slot_metadata => "reportMetadataCallback"
  | slot_notify => "notifyPlayerManager"
  end.

(** ** JavaScript [Set] of buffers, in insertion order *)

Definition Set_add (x : ArrayBuffer) (s : list ArrayBuffer) : list ArrayBuffer :=
  if decide (x ∈ s) then s else s ++ [x].

(** [const s = new Set(); for (const m of ms) s.add(m.message);
    Array.from(s)] *)
Definition collect_arrayBuffers (ms : list Message) : list ArrayBuffer :=
  fold_left (λ s m, Set_add (message m) s) ms [].

Definition raw_only_message : string :=
  "RpcDataProvider only accepts raw messages (that still need to be parsed with ParseMessagesDataProvider)".

(** Requests, replies and the inputs of the endpoint. *)
Inductive Request : Type :=
  | req_initialize (childDescriptor : JsValue)
  | req_getMessages (start end_ : Time) (topics : list string)
  | req_close.

Inductive Reply : Type :=
  | reply_initialize (metadata : JsValue)
  | reply_getMessages (r : GetMessagesReply)
  | reply_close.

Inductive Input : Type :=
  | request (r : Request)                   (* a named request from the caller *)
  | slot_invoked (k : Slot) (data : JsValue). (* the provider calls a slot it was handed *)

Definition is_initialize (i : Input) : bool :=
  match i with
  | request (req_initialize _) => true
  | _ => false
  end.

Section Remote.
Context {Env : Type}.
(** The constructor's second argument: the provider factory. *)
Variable getDataProvider : JsValue → Env → Completion (DataProvider Env) * Env.

(** The object literal passed to [provider.initialize]. *)
Definition extensionPoint : ExtensionPoint Env :=
  {| progressCallback := λ data,
       rpc_send "extensionPointCallback"
                (JsObj [("type", JsStr "progressCallback"); ("data", data)]);
     reportMetadataCallback := λ data,
       rpc_send "extensionPointCallback"
                (JsObj [("type", JsStr "reportMetadataCallback"); ("data", data)]);
     notifyPlayerManager := λ data,
       rpc_send "extensionPointCallback"
                (JsObj [("type", JsStr "notifyPlayerManager"); ("data", data)]) |}.

Definition slot (k : Slot) (ep : ExtensionPoint Env) : JsValue → World Env → World Env :=
  match k with
  | slot_progress => progressCallback ep
  | slot_metadata => reportMetadataCallback ep
  | slot_notify => notifyPlayerManager ep
  end.

(** [rpc.receive("initialize", async ({ childDescriptor }) => ...)] *)
Definition on_initialize (childDescriptor : JsValue) (st : Remote Env) (w : World Env)
  : Completion JsValue * Remote Env * World Env :=
  match getDataProvider childDescriptor (env w) with
  | (Threw e, env') => (Threw e, st, set_env w env')
  | (Returned p, env') =>
      let st' := {| provider := Some p |} in
      let '(r, w') := initialize p extensionPoint (set_env w env') in
      (r, st', w')
  end.

(** Lines after the [await] of the [getMessages] handler: from the
    provider's batch to the handler's completion. *)
Definition reply_of_batch (batch : GetMessagesResult) : Completion GetMessagesReply :=
  let messagesToSend := nullish_coalesce (rosBinaryMessages batch) [] in
  if negb (is_nullish (parsedMessages batch)) || negb (is_nullish (bobjects batch))
  then Threw (new_Error raw_only_message)
  else
    let arrayBuffers := collect_arrayBuffers messagesToSend in
    Returned {| messages := messagesToSend; transferrables := arrayBuffers |}.

(** [rpc.receive("getMessages", async ({ start, end, topics }) => ...)] *)
Definition on_getMessages (start end_ : Time) (topics : list string)
    (st : Remote Env) (w : World Env)
  : Completion GetMessagesReply * Remote Env * World Env :=
  match provider st with
  | None => (Threw (TypeError_undefined "getMessages"), st, w)
  | Some p =>
      match getMessages p start end_ {[ "rosBinaryMessages" := topics ]} w with
      | (Threw e, w') => (Threw e, st, w')
      | (Returned batch, w') => (reply_of_batch batch, st, w')
      end
  end.

(** [rpc.receive("close", () => provider.close())] *)
Definition on_close (st : Remote Env) (w : World Env)
  : Completion unit * Remote Env * World Env :=
  match provider st with
  | None => (Threw (TypeError_undefined "close"), st, w)
  | Some p => let '(r, w') := close p w in (r, st, w')
  end.

Definition map_completion {A B} (f : A → B) (c : Completion A) : Completion B :=
  match c with
  | Returned a => Returned (f a)
  | Threw e => Threw e
  end.

(** Dispatch of one request to its handler. *)
Definition receive (r : Request) (st : Remote Env) (w : World Env)
  : Completion Reply * Remote Env * World Env :=
  match r with
  | req_initialize d =>
      let '(c, st', w') := on_initialize d st w in
      (map_completion reply_initialize c, st', w')
  | req_getMessages start end_ topics =>
      let '(c, st', w') := on_getMessages start end_ topics st w in
      (map_completion reply_getMessages c, st', w')
  | req_close =>
      let '(c, st', w') := on_close st w in
      (map_completion (λ _, reply_close) c, st', w')
  end.

(** One input of the endpoint; a slot invocation has no reply. *)
Definition step (i : Input) (st : Remote Env) (w : World Env)
  : option (Completion Reply) * Remote Env * World Env :=
  match i with
  | request r => let '(c, st', w') := receive r st w in (Some c, st', w')
  | slot_invoked k data => (None, st, slot k extensionPoint data w)
  end.

Fixpoint run (inputs : list Input) (st : Remote Env) (w : World Env)
  : list (option (Completion Reply)) * Remote Env * World Env :=
  match inputs with
  | [] => ([], st, w)
  | i :: inputs' =>
      let '(o, st1, w1) := step i st w in
      let '(os, st2, w2) := run inputs' st1 w1 in
      (o :: os, st2, w2)
  end.

(** The endpoint just after construction. *)
Definition fresh : Remote Env := {| provider := None |}.
End Remote.

Arguments fresh {Env}.

(** ** A scripted host environment

    A provider tree that records every call it receives and answers
    [getMessages] from a script. It is used to run the endpoint on
    concrete inputs. *)

Inductive ProviderCall : Type :=
  | called_initialize (self : nat)
  | called_getMessages (self : nat) (start end_ : Time) (topics : GetMessagesTopics)
  | called_close (self : nat).

Record Host : Type :=
  { created : nat;                                  (* providers built so far *)
    calls : list ProviderCall;                      (* calls received, oldest first *)
    script : list (Completion GetMessagesResult) }. (* answers still to give *)

Definition record_call (c : ProviderCall) (w : World Host) : World Host :=
  set_env w {| created := created (env w); calls := calls (env w) ++ [c];
               script := script (env w) |}.

Definition next_answer (w : World Host) : Completion GetMessagesResult * World Host :=
  match script (env w) with
  | [] => (Returned {| parsedMessages := js_undefined; rosBinaryMessages := js_some [];
                       bobjects := js_undefined |}, w)
  | c :: rest =>
      (c, set_env w {| created := created (env w); calls := calls (env w); script := rest |})
  end.

(** Provider number [self]: reports [{totalMessages: 10}] while it
    initializes and resolves with the metadata it was built with. *)
Definition scripted_provider (self : nat) (metadata : JsValue) : DataProvider Host :=
  {| initialize := λ ep w,
       (Returned metadata,
        reportMetadataCallback ep (JsObj [("totalMessages", JsNum 10)])
          (record_call (called_initialize self) w));
     getMessages := λ start end_ topics w,
       next_answer (record_call (called_getMessages self start end_ topics) w);
     close := λ w, (Returned (), record_call (called_close self) w) |}.

Definition scripted_factory (d : JsValue) (h : Host) : Completion (DataProvider Host) * Host :=
  (Returned (scripted_provider (created h) d),
   {| created := S (created h); calls := calls h; script := script h |}).

Definition host (answers : list (Completion GetMessagesResult)) : World Host :=
  {| rpc := []; env := {| created := 0; calls := []; script := answers |} |}.

Definition raw (t : string) (at_sec : Z) (buffer : nat) : Message :=
  {| topic := t; receiveTime := {| sec := at_sec; nsec := 0 |};
     message := ArrayBufferRef buffer |}.

Definition raw_batch (ms : list Message) : GetMessagesResult :=
  {| parsedMessages := js_undefined; rosBinaryMessages := js_some ms;
     bobjects := js_undefined |}.

Definition seconds (s : Z) : Time := {| sec := s; nsec := 0 |}.

(** The channel message a slot sends. *)
Definition extensionPointCallback (k : Slot) (data : JsValue) : RpcMessage :=
  {| rpc_topic := "extensionPointCallback";
     rpc_data := JsObj [("type", JsStr (slot_type k)); ("data", data)] |}.

(** Concrete inputs for the runs below. *)
Definition demo_descriptor : JsValue := JsObj [("name", JsStr "demo")].
Definition other_descriptor : JsValue := JsObj [("name", JsStr "other")].

Definition p0 : DataProvider Host := scripted_provider 0 demo_descriptor.
Definition p1 : DataProvider Host := scripted_provider 1 other_descriptor.
Definition st0 : Remote Host := {| provider := Some p0 |}.
Definition st1 : Remote Host := {| provider := Some p1 |}.

Definition total_messages : JsValue := JsObj [("totalMessages", JsNum 10)].

(** The world after [initialize] and then [close] on an empty script. *)
Definition closed_world : World Host :=
  {| rpc := [extensionPointCallback slot_metadata total_messages];
     env := {| created := 1; calls := [called_initialize 0; called_close 0];
               script := [] |} |}.

(** The world after one [initialize] with [answers] still to give. *)
Definition initialized_world (answers : list (Completion GetMessagesResult)) : World Host :=
  {| rpc := [extensionPointCallback slot_metadata total_messages];
     env := {| created := 1; calls := [called_initialize 0]; script := answers |} |}.

Definition parsed_batch : GetMessagesResult :=
  {| parsedMessages :=
       js_some [ {| topic := "topicA"; receiveTime := seconds 1; message := JsNum 7 |} ];
     rosBinaryMessages := js_some [raw "topicA" 1 0];
     bobjects := js_undefined |}.

Definition null_batch : GetMessagesResult :=
  {| parsedMessages := js_undefined; rosBinaryMessages := js_null; bobjects := js_null |}.

(** Two records that share one buffer, and one on a buffer of its own. *)
Definition shared_buffer_batch : GetMessagesResult :=
  raw_batch [raw "topicA" 1 0; raw "topicA" 2 0; raw "topicA" 3 1].

Definition provider_failure : JsError := new_Error "read failed".

(** The world after [initialize] and two [getMessages] calls for
    [topicA] over 0 s to 100 s that used up the script. *)
Definition initialized_world_after_two : World Host :=
  {| rpc := [extensionPointCallback slot_metadata total_messages];
     env := {| created := 1;
               calls := [called_initialize 0;
                         called_getMessages 0 (seconds 0) (seconds 100)
                           {[ "rosBinaryMessages" := ["topicA"] ]};
                         called_getMessages 0 (seconds 0) (seconds 100)
                           {[ "rosBinaryMessages" := ["topicA"] ]}];
               script := [] |} |}.

(** The world after two [initialize] requests. *)
Definition twice_initialized_world : World Host :=
  {| rpc := [extensionPointCallback slot_metadata total_messages;
             extensionPointCallback slot_metadata total_messages];
     env := {| created := 2; calls := [called_initialize 0; called_initialize 1];
               script := [] |} |}.

(** A factory that cannot build any provider. *)
Definition failing_factory (d : JsValue) (h : Host) : Completion (DataProvider Host) * Host :=
  (Threw provider_failure, h).

(** A session: [initialize], a read, [close]. *)
Definition demo_session : list Input :=
  [ request (req_initialize demo_descriptor);
    request (req_getMessages (seconds 0) (seconds 100) ["topicA"]);
    request req_close ].

(** The topic filters the providers of a host were called with. *)
Definition recorded_filters (h : Host) : list GetMessagesTopics :=
  omap (λ c, match c with called_getMessages _ _ _ f => Some f | _ => None end) (calls h).

(** * useInitialDeepLinkState: restoring session state from a deep link

    The hook keeps two pieces of state ([unappliedUrlState] and
    [fetchingLayout]) and has three effects and one asynchronous
    callback. Each effect body is embedded as a function from what the
    body reads (the values of the render it belongs to) to the calls
    it makes, in order. A call of a state setter is recorded with its
    argument; [commit] applies the recorded setter calls to the state,
    updaters in call order. Calls of [log.debug] are left out. *)
Module DeepLink.

(** The fields of the parsed URL state that the hook reads. *)
Record AppURLState : Type :=
  { ds : option string;
    dsParams : option (gmap string string);
    layoutId : option string;
    layoutUrl : option string;
    time : option Time }.

(** Truthiness of an optional string: defined and not empty. *)
Definition truthy (x : option string) : bool :=
  match x with
  | Some v => bool_decide (v ≠ "")
  | None => false
  end.

Inductive PlayerPresence : Type :=
  | PRESENT
  | other_presence (name : string).

#[global] Instance PlayerPresence_eq_dec : EqDecision PlayerPresence.
Proof. solve_decision. Defined.

(** What a render of the hook reads from its contexts. *)
Record Context : Type :=
  { targetUrlState : option AppURLState;    (* parsed from [deepLinks[0]] *)
    currentUser : option JsValue;
    playerPresence : PlayerPresence;
    seekPlayback : bool }.                  (* whether the pipeline offers [seekPlayback] *)

(** The two [useState] cells. *)
Record State : Type :=
  { unappliedUrlState : option AppURLState;
    fetchingLayout : bool }.

(** [targetUrlState?.ds === "foxglove-data-platform"] *)
Definition currentUserRequired (ctx : Context) : bool :=
  match targetUrlState ctx with
  | Some t => bool_decide (ds t = Some "foxglove-data-platform")
  | None => false
  end.

(** The initial values of the two cells. *)
Definition initial (ctx : Context) : State :=
  {| unappliedUrlState := targetUrlState ctx; fetchingLayout := false |}.

(** [{ ...oldState }] of a state that may be [undefined]. *)
Definition spread (oldState : option AppURLState) : AppURLState :=
  default {| ds := None; dsParams := None; layoutId := None; layoutUrl := None;
             time := None |} oldState.

(** [(oldState) => ({ ...oldState, ds: undefined, dsParams: undefined })] *)
Definition without_source (oldState : option AppURLState) : option AppURLState :=
  let o := spread oldState in
  Some {| ds := None; dsParams := None; layoutId := layoutId o; layoutUrl := layoutUrl o;
          time := time o |}.

(** [(oldState) => ({ ...oldState, layoutUrl: undefined })] *)
Definition without_layoutUrl (oldState : option AppURLState) : option AppURLState :=
  let o := spread oldState in
  Some {| ds := ds o; dsParams := dsParams o; layoutId := layoutId o; layoutUrl := None;
          time := time o |}.

(** [(oldState) => ({ ...oldState, layoutId: undefined })] *)
Definition without_layoutId (oldState : option AppURLState) : option AppURLState :=
  let o := spread oldState in
  Some {| ds := ds o; dsParams := dsParams o; layoutId := None; layoutUrl := layoutUrl o;
          time := time o |}.

(** [(oldState) => ({ ...oldState, time: undefined })] *)
Definition without_time (oldState : option AppURLState) : option AppURLState :=
  let o := spread oldState in
  Some {| ds := ds o; dsParams := dsParams o; layoutId := layoutId o;
          layoutUrl := layoutUrl o; time := None |}.

(** A [URL] object, as far as the hook reads it. *)
Record URL : Type := { href : string; pathname : string }.

(** The first argument of [fetchLayout]: a [URL] or a string. *)
Inductive UrlArg : Type :=
  | url_object (u : URL)
  | url_string (s : string).

(** [url instanceof URL ? url.href : url], which is also what the
    template literal [`${url}`] prints. *)
Definition url_text (url : UrlArg) : string :=
  match url with
  | url_object u => href u
  | url_string s => s
  end.

(** The calls an effect or the callback makes. *)
Inductive Call : Type :=
  | selectSource (sourceId : string) (params : option (gmap string string))
      (* [selectSource(sourceId, { type: "connection", params })] *)
  | selectEvent (eventId : option string)
  | seek (t : Time)                         (* [seekPlayback(t)] *)
  | setSelectedLayoutId (id : string)
  | setUnappliedUrlState (updater : option AppURLState → option AppURLState)
  | setFetchingLayout (value : bool)
  | fetchLayout_called (url : UrlArg) (name : string).

(** React applies the setter calls of a pass, updaters in order. *)
Definition commit_call (s : State) (c : Call) : State :=
  match c with
  | setUnappliedUrlState updater =>
      {| unappliedUrlState := updater (unappliedUrlState s);
         fetchingLayout := fetchingLayout s |}
  | setFetchingLayout value =>
      {| unappliedUrlState := unappliedUrlState s; fetchingLayout := value |}
  | _ => s
  end.

Definition commit (calls : list Call) (s : State) : State :=
  fold_left commit_call calls s.

(** The effect "Load data source from URL". *)
Definition loadDataSource (ctx : Context) (s : State) : list Call :=
  match unappliedUrlState s with
  | None => []
  | Some u =>
      if currentUserRequired ctx && negb (bool_decide (is_Some (currentUser ctx))) then []
      else
        match ds u with
        | Some source =>
            if bool_decide (source ≠ "") then
              [ selectSource source (dsParams u);
                selectEvent (dsParams u ≫= (λ params, params !! "eventId"));
                setUnappliedUrlState without_source ]
            else []
        | None => []
        end
  end.

(** The effect "Seek to time in URL". *)
Definition seekToTime (ctx : Context) (s : State) : list Call :=
  match unappliedUrlState s ≫= time with
  | None => []
  | Some t =>
      if negb (seekPlayback ctx) then []
      else if bool_decide (playerPresence ctx ≠ PRESENT) then []
      else [ seek t; setUnappliedUrlState without_time ]
  end.

(** ** [url.pathname.replace(/.*\//, "")]

    Characters are one-byte here; of JavaScript's line terminators,
    line feed and carriage return are in range. The pattern matches at
    the start of the first line that has a slash, up to the last slash
    of that line. *)
Definition is_line_terminator (c : Ascii.ascii) : bool :=
  bool_decide (c = "010"%char) || bool_decide (c = "013"%char).

(** For [s], the text that replaces [s] when the match starts at its
    first character (if the first line has a slash), and the result of
    the replacement in [s]. *)
Fixpoint replace_match (s : string) : option string * string :=
  match s with
  | EmptyString => (None, EmptyString)
  | String c rest =>
      let '(m, r) := replace_match rest in
      if is_line_terminator c then (None, String c r)
      else if bool_decide (c = "/"%char) then
             let t := default rest m in (Some t, t)
           else match m with
                | Some t => (Some t, t)
                | None => (None, String c r)
                end
  end.

Definition replace_through_last_slash (s : string) : string := (replace_match s).2.

Fixpoint has_char (P : Ascii.ascii → bool) (s : string) : bool :=
  match s with
  | EmptyString => false
  | String c rest => P c || has_char P rest
  end.

Definition is_slash (c : Ascii.ascii) : bool := bool_decide (c = "/"%char).

(** Layouts, as far as the callback reads them. *)
Record Layout : Type := { id : string; name : string }.

(** [(layout) => layout.name === n] *)
Definition named (n : string) (layout : Layout) : bool := bool_decide (name layout = n).

(** A rejected promise carries what was thrown: here a string or an
    error object. *)
Inductive Thrown : Type :=
  | thrown_string (s : string)
  | thrown_error (e : JsError).

Inductive Outcome (A : Type) : Type :=
  | Resolved (a : A)
  | Rejected (reason : Thrown).
Arguments Resolved {A} a.
Arguments Rejected {A} reason.

(** A [Response]: its [ok] flag and what [json()] settles to. *)
Record Response : Type := { ok : bool; json : Outcome JsValue }.

Section Hook.
(** [new URL(s)]; [None] when the constructor throws. *)
Variable new_URL : string → option URL.
(** The layout manager, over its own state [Store]. *)
Context {Store : Type}.
Variable fetch : string → Outcome Response.
Variable getLayouts : Store → Outcome (list Layout) * Store.
(** [saveNewLayout({ name, data, permission })] *)
Variable saveNewLayout : string → JsValue → string → Store → Outcome Layout * Store.
(** [updateLayout({ id, name, data })] *)
Variable updateLayout : string → string → JsValue → Store → Outcome Layout * Store.

(** The effect "Select layout from URL". The second component tells
    whether [new URL] threw; the calls made before it are listed. *)
Definition selectLayout (ctx : Context) (s : State) : list Call * bool :=
  let u := unappliedUrlState s in
  let waiting :=
    truthy (u ≫= layoutId) && currentUserRequired ctx &&
    bool_decide (playerPresence ctx ≠ PRESENT) in
  if waiting then ([], false)
  else
    let selected :=
      match u ≫= layoutId with
      | Some l => if bool_decide (l ≠ "")
                  then [ setSelectedLayoutId l; setUnappliedUrlState without_layoutId ]
                  else []
      | None => []
      end in
    if fetchingLayout s then (selected, false)
    else
      match u ≫= layoutUrl with
      | Some l =>
          if bool_decide (l ≠ "") then
            match new_URL l with
            | None => (selected, true)
            | Some url =>
                let name := replace_through_last_slash (pathname url) in
                (selected ++ [ setFetchingLayout true;
                               fetchLayout_called (url_object url) name ], false)
            end
          else (selected ++ [ fetchLayout_called (url_string "config.json") "Preset" ], false)
      | None => (selected ++ [ fetchLayout_called (url_string "config.json") "Preset" ], false)
      end.

(** The body of the [fetchLayout] callback: its outcome, the setter
    calls it makes, and the layout manager's state after it. *)
Definition fetchLayout (url : UrlArg) (name : string) (store : Store)
  : Outcome unit * list Call * Store :=
  let could_not_load := thrown_string ("Could not load the layout from " +:+ url_text url) in
  match fetch (url_text url) with
  | Rejected _ => (Rejected could_not_load, [], store)
  | Resolved res =>
      if negb (ok res) then (Rejected could_not_load, [], store)
      else
        match json res with
        | Rejected _ =>
            (Rejected (thrown_string (url_text url +:+ " does not contain valid layout JSON")),
             [], store)
        | Resolved data =>
            match getLayouts store with
            | (Rejected reason, store1) => (Rejected reason, [], store1)
            | (Resolved layouts, store1) =>
                let sourceLayout :=
                  List.find (named name) layouts in
                let saved :=
                  match sourceLayout with
                  | None => saveNewLayout name data "CREATOR_WRITE" store1
                  | Some l => updateLayout (id l) name data store1
                  end in
                match saved with
                | (Rejected reason, store2) => (Rejected reason, [], store2)
                | (Resolved newLayout, store2) =>
                    (Resolved (),
                     [ setSelectedLayoutId (id newLayout);
                       setUnappliedUrlState without_layoutUrl;
                       setFetchingLayout false ],
                     store2)
                end
            end
        end
  end.

(** What happens to the hook: a render in which some of the effects
    run (all against the state of that render, in the order of the
    source, their setter calls applied afterwards), or a started
    [fetchLayout] running to its end; the callback's awaits are one
    step of the layout manager, and its setter calls come together
    after the last of them. A render whose layout effect throws stays
    in the run with the calls made before the throw. *)
Inductive Event : Type :=
  | rendered (ctx : Context) (source layout seeking : bool)
  | fetchLayout_settled (url : UrlArg) (name : string).

Definition render_calls (ctx : Context) (source layout seeking : bool) (s : State)
  : list Call :=
  (if source then loadDataSource ctx s else []) ++
  (if layout then (selectLayout ctx s).1 else []) ++
  (if seeking then seekToTime ctx s else []).

Definition hook_step (e : Event) (s : State) (store : Store)
  : list Call * State * Store :=
  match e with
  | rendered ctx source layout seeking =>
      let calls := render_calls ctx source layout seeking s in
      (calls, commit calls s, store)
  | fetchLayout_settled url name =>
      let '(_, calls, store') := fetchLayout url name store in
      (calls, commit calls s, store')
  end.

Fixpoint hook_run (events : list Event) (s : State) (store : Store)
  : list Call * State * Store :=
  match events with
  | [] => ([], s, store)
  | e :: events' =>
      let '(calls, s1, store1) := hook_step e s store in
      let '(calls', s2, store2) := hook_run events' s1 store1 in
      (calls ++ calls', s2, store2)
  end.
End Hook.

Definition is_selectSource (c : Call) : bool :=
  match c with selectSource _ _ => true | _ => false end.
Definition is_seek (c : Call) : bool :=
  match c with seek _ => true | _ => false end.
Definition is_fetchLayout_called (c : Call) : bool :=
  match c with fetchLayout_called _ _ => true | _ => false end.

(** Whether a part of the URL state is still to be applied. *)
Definition source_pending (s : State) : bool := truthy (unappliedUrlState s ≫= ds).
Definition time_pending (s : State) : bool :=
  bool_decide (is_Some (unappliedUrlState s ≫= time)).

(** How many of the calls satisfy [P]. *)
Definition count (P : Call → bool) (calls : list Call) : nat :=
  length (List.filter P calls).

(** A setter call whose updater leaves the field [proj] as it is or
    makes it undefined. *)
Definition call_shrinks {A} (proj : AppURLState → option A) (c : Call) : Prop :=
  match c with
  | setUnappliedUrlState f => ∀ old, f old ≫= proj = None ∨ f old ≫= proj = old ≫= proj
  | _ => True
  end.

Definition is_rendered (e : Event) : bool :=
  match e with rendered _ _ _ _ => true | fetchLayout_settled _ _ => false end.

(** ** A concrete environment for running the hook *)

Definition demo_url : URL :=
  {| href := "https://example.com/layouts/shared/demo.json";
     pathname := "/layouts/shared/demo.json" |}.

(** A [URL] constructor that knows one URL and throws on the rest. *)
Definition demo_new_URL (s : string) : option URL :=
  if bool_decide (s = href demo_url) then Some demo_url else None.

Definition working_fetch (url : string) : Outcome Response :=
  Resolved {| ok := true; json := Resolved (JsObj [("layout", JsStr url)]) |}.

Definition failing_fetch (url : string) : Outcome Response :=
  Resolved {| ok := false; json := Rejected (thrown_string "no body") |}.

(** A layout manager that keeps its layouts in a list. *)
Definition list_getLayouts (store : list Layout) : Outcome (list Layout) * list Layout :=
  (Resolved store, store).

Definition list_saveNewLayout (n : string) (data : JsValue) (permission : string)
    (store : list Layout) : Outcome Layout * list Layout :=
  let layout := {| id := "id-of-" +:+ n; name := n |} in
  (Resolved layout, store ++ [layout]).

Definition list_updateLayout (i n : string) (data : JsValue) (store : list Layout)
  : Outcome Layout * list Layout :=
  (Resolved {| id := i; name := n |}, store).

Definition demo_target : AppURLState :=
  {| ds := Some "foxglove-data-platform";
     dsParams := Some {[ "eventId" := "event-1" ]};
     layoutId := Some "layout-1";
     layoutUrl := Some (href demo_url);
     time := Some {| sec := 5; nsec := 0 |} |}.

(** The user has not signed in and the player is not there yet. *)
Definition ctx_waiting : Context :=
  {| targetUrlState := Some demo_target; currentUser := None;
     playerPresence := other_presence "INITIALIZING"; seekPlayback := false |}.

(** The user has signed in and the player is present. *)
Definition ctx_ready : Context :=
  {| targetUrlState := Some demo_target; currentUser := Some (JsStr "user");
     playerPresence := PRESENT; seekPlayback := true |}.

Definition demo_events : list Event :=
  [ rendered ctx_waiting true true true;
    rendered ctx_ready true true true;
    fetchLayout_settled (url_object demo_url) "demo.json";
    rendered ctx_ready true true true ].

(** A state in which the layout fetch for the URL is under way and
    the rest of the URL state has been applied. *)
Definition fetching_state : State :=
  {| unappliedUrlState :=
       Some {| ds := None; dsParams := None; layoutId := None;
               layoutUrl := Some (href demo_url); time := None |};
     fetchingLayout := true |}.

Definition demo_layouts : list Layout :=
  [ {| id := "a"; name := "other" |};
    {| id := "b"; name := "demo.json" |};
    {| id := "c"; name := "demo.json" |} ].

End DeepLink.

(** The distinct elements of a list, each at the place of its first
    occurrence: what [Array.from(new Set(l))] is specified to be. *)
Fixpoint first_occurrences (l : list ArrayBuffer) : list ArrayBuffer :=
  match l with
  | [] => []
  | x :: l' => x :: filter (λ y, y ≠ x) (first_occurrences l')
  end.

(** Case analysis of a run of the [getMessages] handler. *)
Ltac getMessages_cases :=
  unfold on_getMessages in *;
  try match goal with
    | H : provider ?st = _ |- _ => rewrite H in *
    | |- context [match provider ?st with _ => _ end] => destruct (provider st) eqn:?
    | H : context [match provider ?st with _ => _ end] |- _ => destruct (provider st) eqn:?
    end;
  try match goal with
    | H : getMessages ?p ?a ?b ?f ?w = _ |- context [getMessages ?p ?a ?b ?f ?w] =>
        rewrite H
    | H : context [getMessages ?p ?a ?b ?f ?w] |- _ =>
        destruct (getMessages p a b f w) as [[?|?] ?] eqn:?
    end.

(** ** Properties of the handlers *)

(** *** The set of buffers *)

Lemma elem_of_Set_add (x y : ArrayBuffer) (s : list ArrayBuffer) :
  y ∈ Set_add x s ↔ y = x ∨ y ∈ s.
Proof.
  unfold Set_add. case_decide as Hx.
  - split; [by right | intros [->|]; done].
  - rewrite elem_of_app, list_elem_of_singleton. tauto.
Qed.

Lemma NoDup_Set_add (x : ArrayBuffer) (s : list ArrayBuffer) :
  NoDup s → NoDup (Set_add x s).
Proof.
  intros Hs. unfold Set_add. case_decide as Hx; [done|].
  apply NoDup_app. split_and!; [done| |apply NoDup_singleton].
  intros y Hy ->%list_elem_of_singleton. done.
Qed.

(** The loop, started from any set [acc] already built. *)
Lemma fold_Set_add_spec (ms : list Message) (acc : list ArrayBuffer) :
  NoDup acc →
  let s := fold_left (λ s m, Set_add (message m) s) ms acc in
  NoDup s ∧ ∀ b, b ∈ s ↔ b ∈ acc ∨ ∃ m, m ∈ ms ∧ message m = b.
Proof.
  revert acc. induction ms as [|m ms IH]; intros acc Hacc; simpl.
  - split; [done|]. intros b. split; [by left|].
    intros [?|(m & Hm & _)]; [done|]. by apply not_elem_of_nil in Hm.
  - destruct (IH (Set_add (message m) acc)) as [Hnd Hin]; [by apply NoDup_Set_add|].
    split; [done|]. intros b. rewrite Hin, elem_of_Set_add. split.
    + intros [[->|?]|(m' & Hm' & <-)].
      * right. exists m. split; [left|done].
      * by left.
      * right. exists m'. split; [by right|done].
    + intros [?|(m' & Hm' & <-)]; [left; by right|].
      apply elem_of_cons in Hm' as [->|?]; [left; by left|].
      right. by exists m'.
Qed.

Lemma collect_arrayBuffers_spec (ms : list Message) :
  NoDup (collect_arrayBuffers ms) ∧
  ∀ b, b ∈ collect_arrayBuffers ms ↔ ∃ m, m ∈ ms ∧ message m = b.
Proof.
  destruct (fold_Set_add_spec ms []) as [Hnd Hin]; [apply NoDup_nil_2|].
  split; [done|]. intros b. rewrite (Hin b). split; [|by right].
  intros [Hb|?]; [|done]. by apply not_elem_of_nil in Hb.
Qed.

(** A successful completion of [reply_of_batch] determines the batch's
    shape and the reply. *)
Lemma reply_of_batch_Returned (batch : GetMessagesResult) (reply : GetMessagesReply) :
  reply_of_batch batch = Returned reply →
  is_nullish (parsedMessages batch) = true ∧ is_nullish (bobjects batch) = true ∧
  messages reply = nullish_coalesce (rosBinaryMessages batch) [] ∧
  transferrables reply = collect_arrayBuffers (messages reply).
Proof.
  unfold reply_of_batch.
  destruct (is_nullish (parsedMessages batch)), (is_nullish (bobjects batch));
    simpl; intros H; try discriminate.
  by injection H as <-.
Qed.

Section Properties.
Context {Env : Type}.
Variable getDataProvider : JsValue → Env → Completion (DataProvider Env) * Env.
Implicit Types (st : Remote Env) (w : World Env) (p : DataProvider Env).
Implicit Types (topics : list string).

(** C1. When the batch the provider resolves with has a non-null
    [parsedMessages] or [bobjects] field, the [getMessages] handler
    throws the raw-only error: there is no reply, so no message is
    forwarded; the bridge sends nothing on the channel and keeps its
    provider. *)
Theorem getMessages_rejects_parsed p st w (start end_ : Time) topics batch w' :
  provider st = Some p →
  getMessages p start end_ {[ "rosBinaryMessages" := topics ]} w = (Returned batch, w') →
  is_nullish (parsedMessages batch) = false ∨ is_nullish (bobjects batch) = false →
  on_getMessages start end_ topics st w = (Threw (new_Error raw_only_message), st, w').
Proof.
  intros Hp Hget Hshape. getMessages_cases. unfold reply_of_batch.
  by destruct Hshape as [-> | ->]; simpl; rewrite ?orb_true_r.
Qed.

(** C2. In every successful [getMessages] reply the transfer list has
    no duplicates and holds exactly the buffers of the replied
    messages: each distinct buffer occurs once. *)
Theorem transferrables_each_buffer_once (start end_ : Time) topics st w reply st' w' :
  on_getMessages start end_ topics st w = (Returned reply, st', w') →
  NoDup (transferrables reply) ∧
  ∀ b, b ∈ transferrables reply ↔ ∃ m, m ∈ messages reply ∧ message m = b.
Proof.
  intros Hrun. getMessages_cases; try discriminate.
  injection Hrun as Hreply _ _.
  apply reply_of_batch_Returned in Hreply as (_ & _ & _ & ->).
  apply collect_arrayBuffers_spec.
Qed.

(** What a slot of the wired extension point does: one [rpc.send]. *)
Lemma slot_extensionPoint (k : Slot) (data : JsValue) w :
  slot k extensionPoint data w =
    {| rpc := rpc w ++ [extensionPointCallback k data]; env := env w |}.
Proof. by destruct k. Qed.

(** C3, as the code has it. The [close] handler only calls the
    provider's [close] and leaves the slots wired: once it has
    resolved, each later invocation of a slot by the provider still
    puts exactly one [extensionPointCallback] message on the channel. *)
Theorem slots_still_forward_after_close st w st' w' (k : Slot) (data : JsValue) :
  on_close st w = (Returned (), st', w') →
  st' = st ∧
  (∃ p, provider st = Some p ∧ close p w = (Returned (), w')) ∧
  step getDataProvider (slot_invoked k data) st' w' =
    (None, st', {| rpc := rpc w' ++ [extensionPointCallback k data]; env := env w' |}).
Proof.
  unfold on_close. intros Hclose.
  destruct (provider st) as [p|] eqn:Hp; [|discriminate].
  destruct (close p w) as [r w1] eqn:Hc. injection Hclose as -> <- <-.
  split_and!; [done|by exists p|].
  simpl. by rewrite slot_extensionPoint.
Qed.

(** C4, as the code has it. The [getMessages] handler calls the
    provider with a topic filter whose only field is
    [rosBinaryMessages], holding the request's topics. *)
Theorem getMessages_topic_filter p st w (start end_ : Time) topics :
  provider st = Some p →
  ∃ filter : GetMessagesTopics,
    filter !! "rosBinaryMessages" = Some topics ∧
    (∀ field, field ≠ "rosBinaryMessages" → filter !! field = None) ∧
    on_getMessages start end_ topics st w =
      match getMessages p start end_ filter w with
      | (Threw e, w') => (Threw e, st, w')
      | (Returned batch, w') => (reply_of_batch batch, st, w')
      end.
Proof.
  intros Hp. exists {[ "rosBinaryMessages" := topics ]}. split_and!.
  - apply lookup_singleton_eq.
  - intros field Hne. by apply lookup_singleton_ne.
  - unfold on_getMessages. by rewrite Hp.
Qed.

(** C5. The handler hands [start] and [end] to the provider as it got
    them, in that order, whatever their values: its completion and its
    effect are those of the provider's call at exactly that range. *)
Theorem getMessages_range_unmodified p st w (start end_ : Time) topics :
  provider st = Some p →
  ∀ c w', getMessages p start end_ {[ "rosBinaryMessages" := topics ]} w = (c, w') →
    on_getMessages start end_ topics st w =
      (match c with Returned batch => reply_of_batch batch | Threw e => Threw e end,
       st, w').
Proof.
  intros Hp c w' Hget. unfold on_getMessages. rewrite Hp, Hget. by destruct c.
Qed.

(** C6. An error of the provider's [getMessages] becomes the failure
    of that request and nothing else: the bridge keeps the same
    provider, and a later request is forwarded to it and succeeds when
    the provider then resolves with raw messages. *)
Theorem getMessages_failure_is_request_scoped p st w (start end_ : Time) topics e w1 :
  provider st = Some p →
  getMessages p start end_ {[ "rosBinaryMessages" := topics ]} w = (Threw e, w1) →
  on_getMessages start end_ topics st w = (Threw e, st, w1) ∧
  ∀ (start2 end2 : Time) topics2 batch w2,
    getMessages p start2 end2 {[ "rosBinaryMessages" := topics2 ]} w1 = (Returned batch, w2) →
    is_nullish (parsedMessages batch) = true →
    is_nullish (bobjects batch) = true →
    ∃ reply,
      on_getMessages start2 end2 topics2 st w1 = (Returned reply, st, w2) ∧
      messages reply = nullish_coalesce (rosBinaryMessages batch) [].
Proof.
  intros Hp Hfail. split.
  - unfold on_getMessages. by rewrite Hp, Hfail.
  - intros start2 end2 topics2 batch w2 Hok Hparsed Hbobj.
    unfold on_getMessages. rewrite Hp, Hok.
    unfold reply_of_batch. rewrite Hparsed, Hbobj. simpl. by eexists.
Qed.

(** C7. The [initialize] handler passes the provider an extension
    point each of whose three slots, called with [data], sends exactly
    one [extensionPointCallback] message carrying the slot's type tag
    and [data]; the handler completes as the provider's [initialize]
    does. *)
Theorem initialize_wires_slots_and_returns_metadata (d : JsValue) st w p (env1 : Env) :
  getDataProvider d (env w) = (Returned p, env1) →
  ∃ ep : ExtensionPoint Env,
    (∀ k data w0,
       slot k ep data w0 =
         {| rpc := rpc w0 ++ [ {| rpc_topic := "extensionPointCallback";
                                  rpc_data := JsObj [("type", JsStr (slot_type k));
                                                     ("data", data)] |} ];
            env := env w0 |}) ∧
    on_initialize getDataProvider d st w =
      (let '(r, w') := initialize p ep (set_env w env1) in
       (r, {| provider := Some p |}, w')).
Proof.
  intros Hnew. exists extensionPoint. split.
  - intros k data w0. apply slot_extensionPoint.
  - unfold on_initialize. by rewrite Hnew.
Qed.

(** C8. A second [initialize] behaves as a first one: the provider
    built from the new descriptor becomes the bridge's provider, the
    handler completes as the new provider's [initialize] does, the
    earlier provider plays no part (none of its methods is called, and
    it is no longer held), and later [getMessages] and [close] requests
    go to the new provider. *)
Theorem second_initialize_replaces_provider (d2 : JsValue) st w p2 (env1 : Env) r w' :
  getDataProvider d2 (env w) = (Returned p2, env1) →
  initialize p2 extensionPoint (set_env w env1) = (r, w') →
  on_initialize getDataProvider d2 st w = (r, {| provider := Some p2 |}, w') ∧
  on_initialize getDataProvider d2 st w = on_initialize getDataProvider d2 fresh w ∧
  (∀ (start end_ : Time) topics w0,
     on_getMessages start end_ topics {| provider := Some p2 |} w0 =
       match getMessages p2 start end_ {[ "rosBinaryMessages" := topics ]} w0 with
       | (Threw e, w1) => (Threw e, {| provider := Some p2 |}, w1)
       | (Returned batch, w1) => (reply_of_batch batch, {| provider := Some p2 |}, w1)
       end) ∧
  (∀ w0, on_close {| provider := Some p2 |} w0 =
           (let '(c, w1) := close p2 w0 in (c, {| provider := Some p2 |}, w1))).
Proof.
  intros Hnew Hinit. unfold on_initialize. rewrite Hnew, Hinit. done.
Qed.

(** One input that is not [initialize], handled by a bridge that has
    no provider yet. *)
Lemma step_without_provider (i : Input) w :
  is_initialize i = false →
  ∃ o w', step getDataProvider i fresh w = (o, fresh, w') ∧
          (o = None ∨ ∃ property, o = Some (Threw (TypeError_undefined property))).
Proof.
  destruct i as [[d|start end_ topics|]|k data]; simpl; intros Hi; try discriminate.
  - eexists _, _. split; [done|]. right. by eexists.
  - eexists _, _. split; [done|]. right. by eexists.
  - eexists _, _. split; [done|]. by left.
Qed.

(** C9. As long as no [initialize] request has arrived, the bridge
    has no provider and every [getMessages] or [close] request fails
    with the [TypeError] of reading a method of [undefined]. *)
Theorem requests_before_initialize_fail (inputs : list Input) w outs st' w' :
  forallb (λ i, negb (is_initialize i)) inputs = true →
  run getDataProvider inputs fresh w = (outs, st', w') →
  st' = fresh ∧
  Forall (λ o, o = None ∨ ∃ property, o = Some (Threw (TypeError_undefined property))) outs.
Proof.
  revert w outs st' w'. induction inputs as [|i inputs IH]; simpl; intros w outs st' w'.
  - intros _ [= <- <- <-]. by split.
  - intros [Hi Hrest]%andb_prop Hrun. apply negb_true_iff in Hi.
    destruct (step_without_provider i w Hi) as (o & w1 & Hstep & Ho).
    rewrite Hstep in Hrun.
    destruct (run getDataProvider inputs fresh w1) as [[os st2] w2] eqn:Htail.
    injection Hrun as <- <- <-.
    destruct (IH _ _ _ _ Hrest Htail) as [-> Hos].
    split; [done|]. by constructor.
Qed.

(** C10. When the batch has neither parsed nor object messages and its
    [rosBinaryMessages] field is [null] or [undefined], the handler
    returns an empty message list and an empty transfer list. *)
Theorem getMessages_absent_raw_is_empty_reply p st w (start end_ : Time) topics batch w' :
  provider st = Some p →
  getMessages p start end_ {[ "rosBinaryMessages" := topics ]} w = (Returned batch, w') →
  is_nullish (parsedMessages batch) = true →
  is_nullish (bobjects batch) = true →
  is_nullish (rosBinaryMessages batch) = true →
  on_getMessages start end_ topics st w =
    (Returned {| messages := []; transferrables := [] |}, st, w').
Proof.
  intros Hp Hget Hparsed Hbobj Hraw. getMessages_cases.
  unfold reply_of_batch. rewrite Hparsed, Hbobj. simpl.
  by destruct (rosBinaryMessages batch).
Qed.

End Properties.

(** ** Runs on the scripted host *)

(** The scripted provider sees the range exactly as the request gave
    it, for any [start] and [end]. *)
Lemma scripted_provider_sees_range (start end_ : Time) (topics : list string)
    (answers : list (Completion GetMessagesResult)) :
  calls (env (on_getMessages start end_ topics st0 (host answers)).2) =
    [called_getMessages 0 start end_ {[ "rosBinaryMessages" := topics ]}].
Proof. unfold on_getMessages. simpl. unfold next_answer. simpl. by destruct answers as [|[?|?] ?]. Qed.

Lemma getMessages_rejects_parsed_witness :
  on_getMessages (seconds 0) (seconds 100) ["topicA"] st0 (initialized_world [Returned parsed_batch]) =
    (Threw (new_Error raw_only_message), st0,
     {| rpc := [extensionPointCallback slot_metadata total_messages];
        env := {| created := 1;
                  calls := [called_initialize 0;
                            called_getMessages 0 (seconds 0) (seconds 100)
                              {[ "rosBinaryMessages" := ["topicA"] ]}];
                  script := [] |} |}).
Proof.
  apply (getMessages_rejects_parsed p0 st0 _ _ _ _ parsed_batch);
    [reflexivity | reflexivity | left; reflexivity].
Defined.

(** Two of three records share a buffer: the transfer list has two
    entries, the shared buffer once. *)
Lemma transferrables_each_buffer_once_witness :
  (on_getMessages (seconds 0) (seconds 100) ["topicA"] st0
     (initialized_world [Returned shared_buffer_batch])).1.1 =
    Returned {| messages := [raw "topicA" 1 0; raw "topicA" 2 0; raw "topicA" 3 1];
                transferrables := [ArrayBufferRef 0; ArrayBufferRef 1] |} ∧
  NoDup [ArrayBufferRef 0; ArrayBufferRef 1] ∧
  ∀ b, b ∈ [ArrayBufferRef 0; ArrayBufferRef 1] ↔
       ∃ m, m ∈ [raw "topicA" 1 0; raw "topicA" 2 0; raw "topicA" 3 1] ∧ message m = b.
Proof.
  split; [reflexivity|].
  exact (transferrables_each_buffer_once (seconds 0) (seconds 100) ["topicA"] st0
           (initialized_world [Returned shared_buffer_batch]) _ _ _ eq_refl).
Defined.

(** The scenario of two records on one buffer: one transfer entry. *)
Example two_records_one_buffer :
  collect_arrayBuffers [raw "topicA" 1 7; raw "topicA" 2 7] = [ArrayBufferRef 7].
Proof. reflexivity. Qed.

(** C3 as stated fails: [initialize], then [close] resolves, then the
    provider calls the progress slot; the event is put on the channel
    all the same. *)
Lemma event_forwarded_after_close :
  run scripted_factory [request (req_initialize demo_descriptor); request req_close]
      fresh (host []) =
    ([Some (Returned (reply_initialize demo_descriptor)); Some (Returned reply_close)],
     st0, closed_world) ∧
  rpc (step scripted_factory (slot_invoked slot_progress (JsNum 50)) st0 closed_world).2 =
    rpc closed_world ++ [extensionPointCallback slot_progress (JsNum 50)] ∧
  rpc (step scripted_factory (slot_invoked slot_progress (JsNum 50)) st0 closed_world).2 ≠
    rpc closed_world.
Proof. split_and!; [reflexivity | reflexivity | discriminate]. Qed.

Lemma slots_still_forward_after_close_witness :
  on_close st0 (initialized_world []) = (Returned (), st0, closed_world) ∧
  step scripted_factory (slot_invoked slot_notify (JsStr "seek")) st0 closed_world =
    (None, st0,
     {| rpc := [extensionPointCallback slot_metadata total_messages;
                extensionPointCallback slot_notify (JsStr "seek")];
        env := env closed_world |}).
Proof.
  split; [reflexivity|].
  exact (proj2 (proj2 (slots_still_forward_after_close scripted_factory st0
                         (initialized_world []) st0 closed_world slot_notify (JsStr "seek")
                         eq_refl))).
Defined.

(** C4 as stated fails: the filter the provider receives has no field
    named [rawOnly]; the topics are in [rosBinaryMessages]. *)
Lemma topic_filter_has_no_rawOnly_field :
  let h := env (on_getMessages (seconds 0) (seconds 100) ["topicA"] st0 (host [])).2 in
  (λ f : GetMessagesTopics, f !! "rawOnly") <$> recorded_filters h = [None] ∧
  (λ f : GetMessagesTopics, f !! "rosBinaryMessages") <$> recorded_filters h =
    [Some ["topicA"]].
Proof. split; reflexivity. Qed.

Lemma getMessages_topic_filter_witness :
  ∃ filter : GetMessagesTopics,
    filter !! "rosBinaryMessages" = Some ["topicA"] ∧
    (∀ field, field ≠ "rosBinaryMessages" → filter !! field = None) ∧
    on_getMessages (seconds 0) (seconds 100) ["topicA"] st0 (host []) =
      match getMessages p0 (seconds 0) (seconds 100) filter (host []) with
      | (Threw e, w') => (Threw e, st0, w')
      | (Returned batch, w') => (reply_of_batch batch, st0, w')
      end.
Proof.
  exact (getMessages_topic_filter p0 st0 (host []) (seconds 0) (seconds 100) ["topicA"]
           eq_refl).
Defined.

(** A request whose [start] is later than its [end]: the provider is
    called with 100 s first and 0 s second. *)
Lemma getMessages_range_unmodified_witness :
  on_getMessages (seconds 100) (seconds 0) ["topicA"] st0 (host []) =
    (Returned {| messages := []; transferrables := [] |}, st0,
     {| rpc := [];
        env := {| created := 0;
                  calls := [called_getMessages 0 (seconds 100) (seconds 0)
                              {[ "rosBinaryMessages" := ["topicA"] ]}];
                  script := [] |} |}).
Proof.
  exact (getMessages_range_unmodified p0 st0 (host []) (seconds 100) (seconds 0) ["topicA"]
           eq_refl _ _ eq_refl).
Defined.

(** The provider rejects the first call and answers the second. *)
Lemma getMessages_failure_is_request_scoped_witness :
  let w := initialized_world [Threw provider_failure; Returned shared_buffer_batch] in
  let w1 := (on_getMessages (seconds 0) (seconds 100) ["topicA"] st0 w).2 in
  on_getMessages (seconds 0) (seconds 100) ["topicA"] st0 w = (Threw provider_failure, st0, w1) ∧
  ∃ reply,
    on_getMessages (seconds 0) (seconds 100) ["topicA"] st0 w1 =
      (Returned reply, st0, initialized_world_after_two) ∧
    messages reply = [raw "topicA" 1 0; raw "topicA" 2 0; raw "topicA" 3 1].
Proof.
  intros w w1.
  destruct (getMessages_failure_is_request_scoped p0 st0 w (seconds 0) (seconds 100)
              ["topicA"] provider_failure w1 eq_refl eq_refl) as [Hfirst Hnext].
  split; [exact Hfirst|].
  exact (Hnext (seconds 0) (seconds 100) ["topicA"] shared_buffer_batch
           initialized_world_after_two eq_refl eq_refl eq_refl).
Defined.

(** [initialize] on the scripted host: the provider reports its
    metadata through the slot while it initializes, the event is on the
    channel, and the reply is the metadata the provider resolved with. *)
Lemma initialize_wires_slots_and_returns_metadata_witness :
  scripted_factory demo_descriptor (env (host [])) =
    (Returned p0, {| created := 1; calls := []; script := [] |}) ∧
  on_initialize scripted_factory demo_descriptor fresh (host []) =
    (Returned demo_descriptor, st0, initialized_world []) ∧
  ∃ ep : ExtensionPoint Host,
    (∀ k data w0,
       slot k ep data w0 =
         {| rpc := rpc w0 ++ [ {| rpc_topic := "extensionPointCallback";
                                  rpc_data := JsObj [("type", JsStr (slot_type k));
                                                     ("data", data)] |} ];
            env := env w0 |}) ∧
    on_initialize scripted_factory demo_descriptor fresh (host []) =
      (let '(r, w') :=
         initialize p0 ep (set_env (host []) {| created := 1; calls := []; script := [] |}) in
       (r, {| provider := Some p0 |}, w')).
Proof.
  split_and!; [reflexivity | reflexivity |].
  exact (initialize_wires_slots_and_returns_metadata scripted_factory demo_descriptor
           fresh (host []) p0 _ eq_refl).
Defined.

(** A second [initialize]: provider 1 takes the place of provider 0,
    provider 0 receives no [close], and a later [close] reaches
    provider 1 only. *)
Lemma second_initialize_replaces_provider_witness :
  on_initialize scripted_factory other_descriptor st0 (initialized_world []) =
    (Returned other_descriptor, st1, twice_initialized_world) ∧
  calls (env (on_close st1 twice_initialized_world).2) =
    [called_initialize 0; called_initialize 1; called_close 1].
Proof.
  split; [|reflexivity].
  exact (proj1 (second_initialize_replaces_provider scripted_factory other_descriptor st0
                  (initialized_world []) p1 _ (Returned other_descriptor)
                  twice_initialized_world eq_refl eq_refl)).
Defined.

(** [getMessages] and [close] sent to a bridge that was never
    initialized. *)
Lemma requests_before_initialize_fail_witness :
  run scripted_factory
      [request (req_getMessages (seconds 0) (seconds 100) ["topicA"]); request req_close]
      fresh (host []) =
    ([Some (Threw (TypeError_undefined "getMessages"));
      Some (Threw (TypeError_undefined "close"))], fresh, host []) ∧
  Forall (λ o : option (Completion Reply),
            o = None ∨ ∃ property, o = Some (Threw (TypeError_undefined property)))
    [Some (Threw (TypeError_undefined "getMessages"));
     Some (Threw (TypeError_undefined "close"))].
Proof.
  split; [reflexivity|].
  exact (proj2 (requests_before_initialize_fail scripted_factory
                  [request (req_getMessages (seconds 0) (seconds 100) ["topicA"]);
                   request req_close]
                  (host []) _ _ _ eq_refl eq_refl)).
Defined.

(** A batch whose raw field is [null]. *)
Lemma getMessages_absent_raw_is_empty_reply_witness :
  (on_getMessages (seconds 0) (seconds 100) ["topicA"] st0
     (initialized_world [Returned null_batch])).1 =
    (Returned {| messages := []; transferrables := [] |}, st0).
Proof.
  exact (f_equal fst
           (getMessages_absent_raw_is_empty_reply p0 st0
              (initialized_world [Returned null_batch]) (seconds 0) (seconds 100) ["topicA"]
              null_batch _ eq_refl eq_refl eq_refl eq_refl eq_refl)).
Defined.

(** ** Further properties of the handlers *)

(** *** The transfer list *)

Lemma fold_Set_add_first_occurrences (ms : list Message) (acc : list ArrayBuffer) :
  fold_left (λ s m, Set_add (message m) s) ms acc =
    acc ++ filter (λ b, b ∉ acc) (first_occurrences (message <$> ms)).
Proof.
  revert acc. induction ms as [|m ms IH]; intros acc; simpl.
  - by rewrite app_nil_r.
  - rewrite IH. unfold Set_add. case_decide as Hin.
    + rewrite filter_cons_False by (intros Hn; by apply Hn).
      f_equal. rewrite list_filter_filter. apply list_filter_iff.
      intros b. split; [|tauto]. intros Hb. split; [done|]. by intros ->.
    + rewrite filter_cons_True by done.
      rewrite <- app_assoc. simpl. do 2 f_equal.
      rewrite list_filter_filter. apply list_filter_iff.
      intros b. rewrite elem_of_app, list_elem_of_singleton. tauto.
Qed.

Lemma collect_arrayBuffers_first_occurrences (ms : list Message) :
  collect_arrayBuffers ms = first_occurrences (message <$> ms).
Proof.
  unfold collect_arrayBuffers. rewrite fold_Set_add_first_occurrences. simpl.
  induction (first_occurrences (message <$> ms)) as [|b l IH]; [done|].
  rewrite filter_cons_True by apply not_elem_of_nil. by rewrite IH.
Qed.

Lemma filter_ne_not_elem_of (x : ArrayBuffer) (l : list ArrayBuffer) :
  x ∉ l → filter (λ y, y ≠ x) l = l.
Proof.
  induction l as [|y l IH]; [done|].
  intros [Hxy Hx]%not_elem_of_cons.
  rewrite filter_cons_True by done. by rewrite IH.
Qed.

Lemma first_occurrences_NoDup (l : list ArrayBuffer) :
  NoDup l → first_occurrences l = l.
Proof.
  induction l as [|x l IH]; [done|].
  intros [Hx Hl]%NoDup_cons. simpl. rewrite (IH Hl).
  by rewrite filter_ne_not_elem_of.
Qed.

Section MoreProperties.
Context {Env : Type}.
Variable getDataProvider : JsValue → Env → Completion (DataProvider Env) * Env.
Implicit Types (st : Remote Env) (w : World Env) (p : DataProvider Env).
Implicit Types (topics : list string).

(** X1. A [getMessages] request succeeds exactly when a provider is
    installed, its call resolves, and the batch has neither parsed nor
    object messages. The reply then carries the provider's raw records
    as they are: same records, same order, none dropped for its topic
    or time; the bridge's provider is unchanged. *)
Theorem getMessages_Returned_iff (start end_ : Time) topics st w reply st' w' :
  on_getMessages start end_ topics st w = (Returned reply, st', w') ↔
  st' = st ∧
  ∃ p batch,
    provider st = Some p ∧
    getMessages p start end_ {[ "rosBinaryMessages" := topics ]} w = (Returned batch, w') ∧
    is_nullish (parsedMessages batch) = true ∧
    is_nullish (bobjects batch) = true ∧
    messages reply = nullish_coalesce (rosBinaryMessages batch) [] ∧
    transferrables reply = collect_arrayBuffers (messages reply).
Proof.
  split.
  - intros Hrun. getMessages_cases; try discriminate.
    injection Hrun as Hreply <- <-. split; [done|].
    apply reply_of_batch_Returned in Hreply as (? & ? & ? & ?).
    by eexists _, _.
  - intros (-> & p & batch & Hp & Hget & Hparsed & Hbobj & Hms & Hts).
    unfold on_getMessages. rewrite Hp, Hget. unfold reply_of_batch.
    rewrite Hparsed, Hbobj. simpl. destruct reply as [ms ts]. simpl in *.
    by subst.
Qed.

(** X2. A [getMessages] request fails in exactly three ways: no
    provider is installed (a [TypeError], nothing is called); the
    provider's call fails (its error is passed on unchanged); or the
    provider resolves with parsed or object messages (the raw-only
    error). In each case the bridge's provider is unchanged. *)
Theorem getMessages_Threw_cases (start end_ : Time) topics st w e st' w' :
  on_getMessages start end_ topics st w = (Threw e, st', w') →
  st' = st ∧
  ((provider st = None ∧ e = TypeError_undefined "getMessages" ∧ w' = w) ∨
   (∃ p, provider st = Some p ∧
         getMessages p start end_ {[ "rosBinaryMessages" := topics ]} w = (Threw e, w')) ∨
   (∃ p batch, provider st = Some p ∧
         getMessages p start end_ {[ "rosBinaryMessages" := topics ]} w = (Returned batch, w') ∧
         (is_nullish (parsedMessages batch) = false ∨ is_nullish (bobjects batch) = false) ∧
         e = new_Error raw_only_message)).
Proof.
  intros Hrun. getMessages_cases.
  - injection Hrun as Hreply <- <-. split; [done|]. right. right.
    eexists _, _. split_and!; [done..| |].
    + unfold reply_of_batch in Hreply.
      destruct (is_nullish (parsedMessages _)); [|by left].
      destruct (is_nullish (bobjects _)); [|by right]. discriminate.
    + unfold reply_of_batch in Hreply.
      destruct (negb _ || negb _); [by injection Hreply|discriminate].
  - injection Hrun as <- <- <-. split; [done|]. right. left. by eexists.
  - injection Hrun as <- <- <-. split; [done|]. by left.
Qed.

(** X3. In a successful reply the transfer list is the list of the
    replied records' buffers with every repeated buffer dropped after
    its first occurrence: buffers appear in the order in which the
    records first refer to them. *)
Theorem transferrables_first_occurrence_order (start end_ : Time) topics st w reply st' w' :
  on_getMessages start end_ topics st w = (Returned reply, st', w') →
  transferrables reply = first_occurrences (message <$> messages reply).
Proof.
  intros Hrun. getMessages_cases; try discriminate.
  injection Hrun as Hreply _ _.
  apply reply_of_batch_Returned in Hreply as (_ & _ & _ & ->).
  apply collect_arrayBuffers_first_occurrences.
Qed.

(** X4. In a successful reply the transfer list is never longer than
    the message list; the two have the same length exactly when no
    two records share a buffer, and then the transfer list is the
    records' buffers in record order. *)
Theorem transferrables_length (start end_ : Time) topics st w reply st' w' :
  on_getMessages start end_ topics st w = (Returned reply, st', w') →
  length (transferrables reply) ≤ length (messages reply) ∧
  (length (transferrables reply) = length (messages reply) ↔
     NoDup (message <$> messages reply)) ∧
  (NoDup (message <$> messages reply) →
     transferrables reply = message <$> messages reply).
Proof.
  intros Hrun. getMessages_cases; try discriminate.
  injection Hrun as Hreply _ _.
  apply reply_of_batch_Returned in Hreply as (_ & _ & _ & ->).
  set (ms := messages reply).
  destruct (collect_arrayBuffers_spec ms) as [Hnd Hin].
  assert (Hsub : collect_arrayBuffers ms ⊆+ message <$> ms).
  { apply NoDup_submseteq; [done|]. intros b (m & Hm & <-)%Hin.
    apply list_elem_of_fmap. by exists m. }
  assert (Hdistinct : NoDup (message <$> ms) → collect_arrayBuffers ms = message <$> ms).
  { intros Hms. rewrite collect_arrayBuffers_first_occurrences.
    by apply first_occurrences_NoDup. }
  split_and!; [|split|done].
  - rewrite <- (length_fmap message ms). by apply submseteq_length.
  - intros Hlen. rewrite <- (length_fmap message ms) in Hlen.
    assert (Hperm : collect_arrayBuffers ms ≡ₚ message <$> ms).
    { apply submseteq_length_Permutation; [done|]. by rewrite Hlen. }
    by rewrite <- Hperm.
  - intros Hms. rewrite (Hdistinct Hms). apply length_fmap.
Qed.

(** One input changes the bridge's provider only if it is an
    [initialize] request whose factory call returns. *)
Lemma step_provider (i : Input) st w o st1 w1 :
  step getDataProvider i st w = (o, st1, w1) →
  st1 = st ∨
  ∃ d p env1, i = request (req_initialize d) ∧
              getDataProvider d (env w) = (Returned p, env1) ∧
              st1 = {| provider := Some p |}.
Proof.
  destruct i as [[d|start end_ topics|]|k data]; simpl.
  - unfold on_initialize.
    destruct (getDataProvider d (env w)) as [[p|e] env1] eqn:Hnew.
    + destruct (initialize p extensionPoint (set_env w env1)) as [r w2].
      intros [= <- <- <-]. right. by eexists _, _, _.
    + intros [= <- <- <-]. by left.
  - destruct (on_getMessages start end_ topics st w) as [[c st2] w2] eqn:Hrun.
    intros [= <- <- <-]. left.
    unfold on_getMessages in Hrun. destruct (provider st) as [p|]; [|congruence].
    destruct (getMessages p _ _ _ w) as [[?|?] ?]; congruence.
  - unfold on_close. destruct (provider st) as [p|].
    + destruct (close p w) as [r w2]. intros [= <- <- <-]. by left.
    + intros [= <- <- <-]. by left.
  - intros [= <- <- <-]. by left.
Qed.

(** X5. Over any sequence of requests and slot invocations, the
    provider the bridge holds at the end is the one it held at the
    start, or one the factory returned for an [initialize] request of
    the sequence: [getMessages], [close] and slot invocations never
    install, replace or drop a provider. *)
Theorem provider_changes_only_on_initialize (inputs : list Input) st w outs st' w' :
  run getDataProvider inputs st w = (outs, st', w') →
  st' = st ∨
  ∃ d p h h', request (req_initialize d) ∈ inputs ∧
              getDataProvider d h = (Returned p, h') ∧
              st' = {| provider := Some p |}.
Proof.
  revert st w outs st' w'. induction inputs as [|i inputs IH]; simpl; intros st w outs st' w'.
  - intros [= <- <- <-]. by left.
  - destruct (step getDataProvider i st w) as [[o st1] w1] eqn:Hstep.
    destruct (run getDataProvider inputs st1 w1) as [[os st2] w2] eqn:Htail.
    intros [= <- <- <-].
    destruct (IH _ _ _ _ _ Htail) as [-> | (d & p & h & h' & Hd & Hnew & ->)].
    + destruct (step_provider _ _ _ _ _ _ Hstep) as [-> | (d & p & env1 & -> & Hnew & ->)].
      * by left.
      * right. exists d, p, (env w), env1. split_and!; [left|done..].
    + right. exists d, p, h, h'. split_and!; [by right|done..].
Qed.

(** X6. A sequence of slot invocations is forwarded one message per
    invocation, in the order of the invocations, after what was
    already on the channel; no reply is produced and neither the
    bridge's provider nor the environment changes. *)
Theorem slot_invocations_forwarded_in_order (calls : list (Slot * JsValue)) st w :
  run getDataProvider ((λ c, slot_invoked c.1 c.2) <$> calls) st w =
    ((λ _, None) <$> calls, st,
     {| rpc := rpc w ++ ((λ c, extensionPointCallback c.1 c.2) <$> calls);
        env := env w |}).
Proof.
  revert w. induction calls as [|[k data] calls IH]; intros w; simpl.
  - rewrite app_nil_r. by destruct w.
  - rewrite slot_extensionPoint, IH. simpl. by rewrite <- app_assoc.
Qed.

(** X7. A failed [initialize] has one of two causes. If the factory
    threw, the provider variable is not assigned: the bridge keeps the
    provider it had and sends nothing. If the factory returned and the
    new provider's [initialize] failed, the new provider is installed
    all the same, in place of any earlier one. *)
Theorem initialize_Threw_cases (d : JsValue) st w e st' w' :
  on_initialize getDataProvider d st w = (Threw e, st', w') →
  (∃ env1, getDataProvider d (env w) = (Threw e, env1) ∧
           st' = st ∧ rpc w' = rpc w ∧ env w' = env1) ∨
  (∃ p env1, getDataProvider d (env w) = (Returned p, env1) ∧
             initialize p extensionPoint (set_env w env1) = (Threw e, w') ∧
             st' = {| provider := Some p |}).
Proof.
  unfold on_initialize.
  destruct (getDataProvider d (env w)) as [[p|e0] env1] eqn:Hnew.
  - destruct (initialize p extensionPoint (set_env w env1)) as [r w2] eqn:Hinit.
    intros [= -> <- <-]. right. by eexists _, _.
  - intros [= <- <- <-]. left. by eexists.
Qed.

End MoreProperties.

(** Runs of the further properties on the scripted host. *)

Lemma getMessages_Returned_iff_witness :
  let w := initialized_world [Returned shared_buffer_batch] in
  let r := on_getMessages (seconds 0) (seconds 100) ["topicA"] st0 w in
  r.1.1 = Returned {| messages := [raw "topicA" 1 0; raw "topicA" 2 0; raw "topicA" 3 1];
                      transferrables := [ArrayBufferRef 0; ArrayBufferRef 1] |} ∧
  st0 = st0 ∧
  ∃ p batch,
    provider st0 = Some p ∧
    getMessages p (seconds 0) (seconds 100) {[ "rosBinaryMessages" := ["topicA"] ]} w =
      (Returned batch, r.2) ∧
    is_nullish (parsedMessages batch) = true ∧
    is_nullish (bobjects batch) = true ∧
    [raw "topicA" 1 0; raw "topicA" 2 0; raw "topicA" 3 1] =
      nullish_coalesce (rosBinaryMessages batch) [] ∧
    [ArrayBufferRef 0; ArrayBufferRef 1] =
      collect_arrayBuffers [raw "topicA" 1 0; raw "topicA" 2 0; raw "topicA" 3 1].
Proof.
  intros w r. split; [reflexivity|].
  exact (proj1 (getMessages_Returned_iff (seconds 0) (seconds 100) ["topicA"] st0 w
                  {| messages := [raw "topicA" 1 0; raw "topicA" 2 0; raw "topicA" 3 1];
                     transferrables := [ArrayBufferRef 0; ArrayBufferRef 1] |}
                  st0 r.2) eq_refl).
Defined.

Lemma getMessages_Threw_cases_witness :
  let w := initialized_world [Threw provider_failure] in
  let w' := (on_getMessages (seconds 0) (seconds 100) ["topicA"] st0 w).2 in
  on_getMessages (seconds 0) (seconds 100) ["topicA"] st0 w = (Threw provider_failure, st0, w') ∧
  st0 = st0 ∧
  ((provider st0 = None ∧ provider_failure = TypeError_undefined "getMessages" ∧ w' = w) ∨
   (∃ p, provider st0 = Some p ∧
         getMessages p (seconds 0) (seconds 100) {[ "rosBinaryMessages" := ["topicA"] ]} w =
           (Threw provider_failure, w')) ∨
   (∃ p batch, provider st0 = Some p ∧
         getMessages p (seconds 0) (seconds 100) {[ "rosBinaryMessages" := ["topicA"] ]} w =
           (Returned batch, w') ∧
         (is_nullish (parsedMessages batch) = false ∨ is_nullish (bobjects batch) = false) ∧
         provider_failure = new_Error raw_only_message)).
Proof.
  intros w w'. split; [reflexivity|].
  exact (getMessages_Threw_cases (seconds 0) (seconds 100) ["topicA"] st0 w
           provider_failure st0 w' eq_refl).
Defined.

Lemma transferrables_first_occurrence_order_witness :
  [ArrayBufferRef 0; ArrayBufferRef 1] =
    first_occurrences [ArrayBufferRef 0; ArrayBufferRef 0; ArrayBufferRef 1].
Proof.
  exact (transferrables_first_occurrence_order (seconds 0) (seconds 100) ["topicA"] st0
           (initialized_world [Returned shared_buffer_batch])
           {| messages := [raw "topicA" 1 0; raw "topicA" 2 0; raw "topicA" 3 1];
              transferrables := [ArrayBufferRef 0; ArrayBufferRef 1] |} _ _ eq_refl).
Defined.

Lemma transferrables_length_witness :
  2 ≤ 3 ∧
  (2 = 3 ↔ NoDup [ArrayBufferRef 0; ArrayBufferRef 0; ArrayBufferRef 1]) ∧
  (NoDup [ArrayBufferRef 0; ArrayBufferRef 0; ArrayBufferRef 1] →
   [ArrayBufferRef 0; ArrayBufferRef 1] =
     [ArrayBufferRef 0; ArrayBufferRef 0; ArrayBufferRef 1]).
Proof.
  exact (transferrables_length (seconds 0) (seconds 100) ["topicA"] st0
           (initialized_world [Returned shared_buffer_batch])
           {| messages := [raw "topicA" 1 0; raw "topicA" 2 0; raw "topicA" 3 1];
              transferrables := [ArrayBufferRef 0; ArrayBufferRef 1] |} _ _ eq_refl).
Defined.

Lemma provider_changes_only_on_initialize_witness :
  (run scripted_factory demo_session fresh (host [])).1.2 = st0 ∧
  (st0 = fresh ∨
   ∃ d p h h', request (req_initialize d) ∈ demo_session ∧
               scripted_factory d h = (Returned p, h') ∧
               st0 = {| provider := Some p |}).
Proof.
  split; [reflexivity|].
  exact (provider_changes_only_on_initialize scripted_factory demo_session fresh (host [])
           _ st0 _ eq_refl).
Defined.

Lemma initialize_Threw_cases_witness :
  let w := initialized_world [] in
  on_initialize failing_factory other_descriptor st0 w = (Threw provider_failure, st0, w) ∧
  ((∃ env1, failing_factory other_descriptor (env w) = (Threw provider_failure, env1) ∧
            st0 = st0 ∧ rpc w = rpc w ∧ env w = env1) ∨
   (∃ p env1, failing_factory other_descriptor (env w) = (Returned p, env1) ∧
              initialize p extensionPoint (set_env w env1) = (Threw provider_failure, w) ∧
              st0 = {| provider := Some p |})).
Proof.
  intros w. split; [reflexivity|].
  exact (initialize_Threw_cases failing_factory other_descriptor st0 w provider_failure
           st0 w eq_refl).
Defined.

(** * Properties of useInitialDeepLinkState *)
Module DeepLinkFacts.
Import DeepLink.

(** ** The layout name taken from the URL path *)

Lemma replace_match_no_slash (s : string) :
  has_char is_slash s = false → replace_match s = (None, s).
Proof.
  induction s as [|c rest IH]; [done|]. simpl.
  intros [Hc Hrest]%orb_false_elim. rewrite (IH Hrest).
  unfold is_slash in Hc. rewrite Hc. by destruct (is_line_terminator c).
Qed.

Lemma replace_match_prefix (dir rest t : string) :
  has_char is_line_terminator dir = false →
  replace_match rest = (Some t, t) →
  replace_match (dir +:+ rest) = (Some t, t).
Proof.
  intros Hdir Hrest. induction dir as [|c dir IH]; [done|].
  simpl in *. apply orb_false_elim in Hdir as [Hc Hdir].
  rewrite (IH Hdir), Hc. by case_bool_decide.
Qed.

(** X8. The layout name computed from a URL path is the part after
    the path's last slash: for a path [dir/file] where [file] has no
    slash (and [dir] no line break) it is [file], and a path without
    any slash is its own name. *)
Theorem layout_name_is_last_path_segment (dir file : string) :
  has_char is_line_terminator dir = false →
  has_char is_slash file = false →
  replace_through_last_slash (dir +:+ "/" +:+ file) = file ∧
  replace_through_last_slash file = file.
Proof.
  intros Hdir Hfile. unfold replace_through_last_slash. split.
  - rewrite (replace_match_prefix dir ("/" +:+ file) file); [done..|].
    change ("/" +:+ file) with (String "/" file). simpl.
    by rewrite (replace_match_no_slash file Hfile).
  - by rewrite replace_match_no_slash.
Qed.

Lemma layout_name_is_last_path_segment_witness :
  replace_through_last_slash "/layouts/shared/demo.json" = "demo.json" ∧
  replace_through_last_slash "demo.json" = "demo.json".
Proof.
  exact (layout_name_is_last_path_segment "/layouts/shared" "demo.json" eq_refl eq_refl).
Defined.

(** ** The state setters *)

Lemma commit_app (a b : list Call) (s : State) :
  commit (a ++ b) s = commit b (commit a s).
Proof. apply fold_left_app. Qed.

Lemma count_app (P : Call → bool) (a b : list Call) :
  count P (a ++ b) = count P a + count P b.
Proof. unfold count. by rewrite List.filter_app, length_app. Qed.

(** After setter calls that only shrink a field, the field is
    undefined or what it was. *)
Lemma commit_shrinks {A} (proj : AppURLState → option A) (calls : list Call) (s : State) :
  Forall (call_shrinks proj) calls →
  unappliedUrlState (commit calls s) ≫= proj = None ∨
  unappliedUrlState (commit calls s) ≫= proj = unappliedUrlState s ≫= proj.
Proof.
  intros Hcalls. revert s. induction Hcalls as [|c calls Hc _ IH]; intros s; [by right|].
  simpl. destruct (IH (commit_call s c)) as [Hnone | Hsame]; [by left|].
  rewrite Hsame. destruct c; simpl; try by right. apply Hc.
Qed.

(** Once a field is undefined, shrinking setter calls keep it so. *)
Lemma commit_shrinks_None {A} (proj : AppURLState → option A) (calls : list Call) (s : State) :
  Forall (call_shrinks proj) calls →
  unappliedUrlState s ≫= proj = None →
  unappliedUrlState (commit calls s) ≫= proj = None.
Proof.
  intros Hcalls Hs. destruct (commit_shrinks proj calls s Hcalls) as [?|Hsame]; [done|].
  by rewrite Hsame.
Qed.

Ltac shrinks :=
  repeat first
    [ apply Forall_nil_2
    | apply Forall_cons_2
    | apply Forall_app_2
    | exact I
    | (intros [?|]; simpl; by auto) ].

Section HookFacts.
Variable new_URL : string → option URL.
Context {Store : Type}.
Variable fetch : string → Outcome Response.
Variable getLayouts : Store → Outcome (list Layout) * Store.
Variable saveNewLayout : string → JsValue → string → Store → Outcome Layout * Store.
Variable updateLayout : string → string → JsValue → Store → Outcome Layout * Store.

#[local] Abbreviation fetchLayout := (fetchLayout fetch getLayouts saveNewLayout updateLayout).
#[local] Abbreviation hook_step := (hook_step new_URL fetch getLayouts saveNewLayout updateLayout).
#[local] Abbreviation hook_run := (hook_run new_URL fetch getLayouts saveNewLayout updateLayout).

(** The shapes of what the effects and the callback call. *)
Lemma loadDataSource_cases (ctx : Context) (s : State) :
  loadDataSource ctx s = [] ∨
  ∃ u source, unappliedUrlState s = Some u ∧ ds u = Some source ∧ source ≠ "" ∧
    (currentUserRequired ctx = false ∨ is_Some (currentUser ctx)) ∧
    loadDataSource ctx s =
      [ selectSource source (dsParams u);
        selectEvent (dsParams u ≫= (λ params, params !! "eventId"));
        setUnappliedUrlState without_source ].
Proof.
  unfold loadDataSource. destruct (unappliedUrlState s) as [u|]; [|by left].
  destruct (currentUserRequired ctx) eqn:Hreq; simpl.
  - case_bool_decide as Huser; simpl; [|by left].
    destruct (ds u) as [source|] eqn:Hds; [|by left].
    case_bool_decide; [|by left]. right. eexists _, _. split_and!; eauto.
  - destruct (ds u) as [source|] eqn:Hds; [|by left].
    case_bool_decide; [|by left]. right. eexists _, _. split_and!; eauto.
Qed.

Lemma seekToTime_cases (ctx : Context) (s : State) :
  seekToTime ctx s = [] ∨
  ∃ t, unappliedUrlState s ≫= time = Some t ∧ seekPlayback ctx = true ∧
       playerPresence ctx = PRESENT ∧
       seekToTime ctx s = [ seek t; setUnappliedUrlState without_time ].
Proof.
  unfold seekToTime. destruct (unappliedUrlState s ≫= time) as [t|]; [|by left].
  destruct (seekPlayback ctx); simpl; [|by left].
  case_bool_decide as Hp; [by left|]. right. exists t. split_and!; try done.
Qed.

Lemma selectLayout_calls (ctx : Context) (s : State) :
  ∃ selected started,
    (selectLayout new_URL ctx s).1 = selected ++ started ∧
    (selected = [] ∨
     ∃ l, unappliedUrlState s ≫= layoutId = Some l ∧ l ≠ "" ∧
          selected = [ setSelectedLayoutId l; setUnappliedUrlState without_layoutId ]) ∧
    (started = [] ∨
     fetchingLayout s = false ∧
     ((∃ url name, started = [ setFetchingLayout true; fetchLayout_called url name ]) ∨
      started = [ fetchLayout_called (url_string "config.json") "Preset" ])).
Proof.
  unfold selectLayout.
  destruct (truthy _ && _ && _); [exists [], []; by auto|].
  set (selected := match unappliedUrlState s ≫= layoutId with Some _ => _ | None => _ end).
  assert (Hsel : selected = [] ∨
     ∃ l, unappliedUrlState s ≫= layoutId = Some l ∧ l ≠ "" ∧
          selected = [ setSelectedLayoutId l; setUnappliedUrlState without_layoutId ]).
  { subst selected. destruct (unappliedUrlState s ≫= layoutId) as [l|]; [|by left].
    case_bool_decide; [|by left]. right. by exists l. }
  destruct (fetchingLayout s) eqn:Hf.
  { exists selected, []. by rewrite app_nil_r; auto. }
  destruct (unappliedUrlState s ≫= layoutUrl) as [l|].
  - case_bool_decide.
    + destruct (new_URL l) as [url|].
      * eexists selected, _. split_and!; [done..|]. right. split; [done|]. left. by eexists _, _.
      * exists selected, []. by rewrite app_nil_r; auto.
    + eexists selected, _. split_and!; [done..|]. right. by auto.
  - eexists selected, _. split_and!; [done..|]. right. by auto.
Qed.

Lemma fetchLayout_calls (url : UrlArg) (name : string) (store : Store) :
  (∃ reason, (fetchLayout url name store).1.1 = Rejected reason) ∧
    (fetchLayout url name store).1.2 = [] ∨
  (fetchLayout url name store).1.1 = Resolved () ∧
    ∃ layout, (fetchLayout url name store).1.2 =
      [ setSelectedLayoutId (id layout); setUnappliedUrlState without_layoutUrl;
        setFetchingLayout false ].
Proof.
  unfold DeepLink.fetchLayout.
  destruct (fetch (url_text url)) as [res|?]; [|left; by eauto].
  destruct (ok res); simpl; [|left; by eauto].
  destruct (json res) as [data|?]; [|left; by eauto].
  destruct (getLayouts store) as [[layouts|?] store1]; [|left; by eauto].
  destruct (match List.find _ layouts with Some _ => _ | None => _ end)
    as [[newLayout|?] store2]; [|left; by eauto].
  right. split; [done|]. by exists newLayout.
Qed.

(** Every setter call of the hook shrinks [ds] and shrinks [time]. *)
Lemma hook_step_shrinks (e : Event) (s : State) (store : Store) :
  Forall (call_shrinks ds) (hook_step e s store).1.1 ∧
  Forall (call_shrinks time) (hook_step e s store).1.1.
Proof.
  destruct e as [ctx source layout seeking|url name]; simpl.
  - unfold render_calls.
    destruct (loadDataSource_cases ctx s) as [-> | (u & src & _ & _ & _ & _ & ->)];
    destruct (seekToTime_cases ctx s) as [-> | (t & _ & _ & _ & ->)];
    destruct (selectLayout_calls ctx s)
      as (selected & started & -> & [-> | (l & _ & _ & ->)] & [-> | (_ & [(? & ? & ->) | ->])]);
    destruct source, layout, seeking; split; shrinks.
  - destruct (fetchLayout_calls url name store) as [[_ Hcalls] | [_ [layout Hcalls]]];
      destruct (fetchLayout url name store) as [[o calls] store1]; simpl in *; subst calls;
      split; shrinks.
Qed.

Lemma count_selectLayout (P : Call → bool) (ctx : Context) (s : State) :
  (∀ l, P (setSelectedLayoutId l) = false) →
  (∀ f, P (setUnappliedUrlState f) = false) →
  (∀ b, P (setFetchingLayout b) = false) →
  (∀ url name, P (fetchLayout_called url name) = false) →
  count P (selectLayout new_URL ctx s).1 = 0.
Proof.
  intros H1 H2 H3 H4.
  destruct (selectLayout_calls ctx s)
    as (selected & started & -> & [-> | (l & _ & _ & ->)] & [-> | (_ & [(? & ? & ->) | ->])]);
    unfold count; simpl; by rewrite ?H1, ?H2, ?H3, ?H4.
Qed.

Lemma count_fetchLayout (P : Call → bool) (url : UrlArg) (name : string) (store : Store) :
  (∀ l, P (setSelectedLayoutId l) = false) →
  (∀ f, P (setUnappliedUrlState f) = false) →
  (∀ b, P (setFetchingLayout b) = false) →
  count P (fetchLayout url name store).1.2 = 0.
Proof.
  intros H1 H2 H3.
  destruct (fetchLayout_calls url name store) as [[_ ->] | [_ [layout ->]]];
    unfold count; simpl; by rewrite ?H1, ?H2, ?H3.
Qed.

(** One event: what it selects plus what stays pending is at most
    what was pending. *)
Lemma hook_step_source (e : Event) (s : State) (store : Store) :
  count is_selectSource (hook_step e s store).1.1 +
    (if source_pending (hook_step e s store).1.2 then 1 else 0)
  ≤ if source_pending s then 1 else 0.
Proof.
  pose proof (hook_step_shrinks e s store) as [Hshrink _].
  destruct e as [ctx source layout seeking|url name]; simpl in *.
  - unfold render_calls in *. rewrite !count_app.
    assert (Hlayout : count is_selectSource
                        (if layout then (selectLayout new_URL ctx s).1 else []) = 0).
    { destruct layout; [by apply count_selectLayout|done]. }
    assert (Hseek : count is_selectSource (if seeking then seekToTime ctx s else []) = 0).
    { destruct seeking; [|done].
      by destruct (seekToTime_cases ctx s) as [-> | (t & _ & _ & _ & ->)]. }
    rewrite Hlayout, Hseek. clear Hlayout Hseek.
    destruct source;
      [destruct (loadDataSource_cases ctx s) as [Hnone | (u & src & Hu & Hds & Hne & _ & Hfired)]|].
    + rewrite Hnone in *. simpl in *.
      destruct (commit_shrinks ds _ s Hshrink) as [Hn | Hsame];
        unfold source_pending; rewrite ?Hn, ?Hsame; simpl; [lia|].
      by destruct (truthy _).
    + rewrite Hfired in *.
      set (rest := (if layout then _ else _) ++ _) in *.
      apply Forall_app in Hshrink as [_ Hrest].
      rewrite commit_app.
      unfold source_pending at 1.
      rewrite (commit_shrinks_None ds rest _ Hrest) by done.
      unfold source_pending. rewrite Hu. simpl. rewrite Hds. simpl.
      rewrite bool_decide_true by done. done.
    + simpl in *.
      destruct (commit_shrinks ds _ s Hshrink) as [Hn | Hsame];
        unfold source_pending; rewrite ?Hn, ?Hsame; simpl; [lia|].
      by destruct (truthy _).
  - pose proof (count_fetchLayout is_selectSource url name store) as Hcount.
    destruct (fetchLayout url name store) as [[o calls] store1]. simpl in *.
    rewrite Hcount by done.
    destruct (commit_shrinks ds _ s Hshrink) as [Hn | Hsame];
      unfold source_pending; rewrite ?Hn, ?Hsame; simpl; [lia|].
    by destruct (truthy _).
Qed.

(** X9. However often the effects run again, in whatever order and
    with whatever context values, and whenever the layout fetches end,
    [selectSource] is called at most once, and not at all when the
    state has no data source left to apply. *)
Theorem source_selected_at_most_once (events : list Event) (s : State) (store : Store) :
  count is_selectSource (hook_run events s store).1.1 ≤ 1 ∧
  (source_pending s = false → count is_selectSource (hook_run events s store).1.1 = 0).
Proof.
  assert (H : count is_selectSource (hook_run events s store).1.1 +
              (if source_pending (hook_run events s store).1.2 then 1 else 0)
              ≤ if source_pending s then 1 else 0).
  { revert s store. induction events as [|e events IH]; intros s store; simpl.
    - unfold count. simpl. lia.
    - pose proof (hook_step_source e s store) as Hstep.
      destruct (hook_step e s store) as [[calls s1] store1]. simpl in Hstep.
      specialize (IH s1 store1).
      destruct (hook_run events s1 store1) as [[calls' s2] store2]. simpl in *.
      rewrite count_app. destruct (source_pending s1); lia. }
  destruct (source_pending s), (source_pending (hook_run events s store).1.2);
    split; intros; try discriminate; lia.
Qed.

Lemma hook_step_time (e : Event) (s : State) (store : Store) :
  count is_seek (hook_step e s store).1.1 +
    (if time_pending (hook_step e s store).1.2 then 1 else 0)
  ≤ if time_pending s then 1 else 0.
Proof.
  pose proof (hook_step_shrinks e s store) as [_ Hshrink].
  assert (Hkeep : ∀ calls, Forall (call_shrinks time) calls →
            (if time_pending (commit calls s) then 1 else 0)
            ≤ if time_pending s then 1 else 0).
  { intros calls Hcalls.
    destruct (commit_shrinks time _ s Hcalls) as [Hn | Hsame];
      unfold time_pending; rewrite ?Hn, ?Hsame; [|done].
    rewrite bool_decide_false by (by intros [? ?]). case_bool_decide; lia. }
  destruct e as [ctx source layout seeking|url name]; simpl in *.
  - unfold render_calls in *. rewrite !count_app.
    assert (Hsource : count is_seek (if source then loadDataSource ctx s else []) = 0).
    { destruct source; [|done].
      by destruct (loadDataSource_cases ctx s) as [-> | (u & src & _ & _ & _ & _ & ->)]. }
    assert (Hlayout : count is_seek
                        (if layout then (selectLayout new_URL ctx s).1 else []) = 0).
    { destruct layout; [by apply count_selectLayout|done]. }
    rewrite Hsource, Hlayout. clear Hsource Hlayout. simpl.
    destruct seeking;
      [destruct (seekToTime_cases ctx s) as [Hnone | (t & Ht & _ & _ & Hfired)]|].
    + rewrite Hnone in *. simpl. exact (Hkeep _ Hshrink).
    + rewrite Hfired in *. rewrite !commit_app. simpl.
      unfold time_pending. simpl. rewrite Ht.
      by rewrite bool_decide_true by by eexists.
    + simpl. exact (Hkeep _ Hshrink).
  - pose proof (count_fetchLayout is_seek url name store) as Hcount.
    destruct (fetchLayout url name store) as [[o calls] store1]. simpl in *.
    rewrite Hcount by done. exact (Hkeep _ Hshrink).
Qed.

(** X10. However often the effects run again, and in whatever order,
    [seekPlayback] is called at most once, and not at all when the
    state has no time left to apply. *)
Theorem seek_called_at_most_once (events : list Event) (s : State) (store : Store) :
  count is_seek (hook_run events s store).1.1 ≤ 1 ∧
  (time_pending s = false → count is_seek (hook_run events s store).1.1 = 0).
Proof.
  assert (H : count is_seek (hook_run events s store).1.1 +
              (if time_pending (hook_run events s store).1.2 then 1 else 0)
              ≤ if time_pending s then 1 else 0).
  { revert s store. induction events as [|e events IH]; intros s store; simpl.
    - unfold count. simpl. lia.
    - pose proof (hook_step_time e s store) as Hstep.
      destruct (hook_step e s store) as [[calls s1] store1]. simpl in Hstep.
      specialize (IH s1 store1).
      destruct (hook_run events s1 store1) as [[calls' s2] store2]. simpl in *.
      rewrite count_app. destruct (time_pending s1); lia. }
  destruct (time_pending s), (time_pending (hook_run events s store).1.2);
    split; intros; try discriminate; lia.
Qed.


(** A render while a layout fetch is under way. *)
Lemma render_while_fetching (ctx : Context) (source layout seeking : bool) (s : State) :
  fetchingLayout s = true →
  let calls := render_calls new_URL ctx source layout seeking s in
  count is_fetchLayout_called calls = 0 ∧
  fetchingLayout (commit calls s) = true ∧
  unappliedUrlState (commit calls s) ≫= layoutUrl = unappliedUrlState s ≫= layoutUrl.
Proof.
  intros Hf. unfold render_calls.
  destruct (loadDataSource_cases ctx s) as [-> | (u & src & _ & _ & _ & _ & ->)];
  destruct (seekToTime_cases ctx s) as [-> | (t & _ & _ & _ & ->)];
  destruct (selectLayout_calls ctx s)
    as (selected & started & -> & [-> | (l & _ & _ & ->)] & [-> | (Hnot & _)]);
  try congruence;
  destruct source, layout, seeking; simpl; split_and!; try done;
  by destruct (unappliedUrlState s).
Qed.

(** X12. While [fetchingLayout] is true no render starts a layout
    fetch, and no render sets it back to false. So once a started
    layout fetch has failed, whatever renders follow start no layout
    fetch again (neither for the URL nor for the preset), and the
    layout URL stays unapplied. *)
Theorem layout_fetch_not_retried_after_failure (url : UrlArg) (name : string)
    (events : list Event) (s : State) (store : Store) :
  fetchingLayout s = true →
  (∃ reason, (fetchLayout url name store).1.1 = Rejected reason) →
  forallb is_rendered events = true →
  let r := hook_run (fetchLayout_settled url name :: events) s store in
  count is_fetchLayout_called r.1.1 = 0 ∧
  fetchingLayout r.1.2 = true ∧
  unappliedUrlState r.1.2 ≫= layoutUrl = unappliedUrlState s ≫= layoutUrl.
Proof.
  intros Hf [reason Hfail] Hevents. simpl.
  destruct (fetchLayout_calls url name store) as [[_ Hcalls] | [Hok _]];
    [|congruence].
  destruct (fetchLayout url name store) as [[o calls] store1]. simpl in Hcalls.
  subst calls. simpl. clear Hfail o store.
  revert s store1 Hf. induction events as [|e events IH]; intros s store Hf; simpl.
  - done.
  - apply andb_prop in Hevents as [He Hevents].
    destruct e as [ctx source layout seeking|]; [|discriminate]. simpl.
    destruct (render_while_fetching ctx source layout seeking s Hf) as (Hc & Hf1 & Hurl).
    specialize (IH Hevents _ store Hf1).
    destruct (hook_run events _ store) as [[calls' s2] store2]. simpl in *.
    rewrite count_app, Hc. destruct IH as (-> & -> & ->). done.
Qed.

(** X13. When a layout fetch resolves, [fetchingLayout] is false and
    the layout URL is applied. The next run of the layout effect, with
    no layout id left to apply, therefore starts the fetch of the
    preset layout from config.json, and nothing else. *)
Theorem preset_requested_after_layout_loaded (url : UrlArg) (name : string)
    (ctx : Context) (s : State) (store : Store) :
  (fetchLayout url name store).1.1 = Resolved () →
  truthy (unappliedUrlState s ≫= layoutId) = false →
  let s' := (hook_step (fetchLayout_settled url name) s store).1.2 in
  fetchingLayout s' = false ∧
  unappliedUrlState s' ≫= layoutUrl = None ∧
  selectLayout new_URL ctx s' =
    ([ fetchLayout_called (url_string "config.json") "Preset" ], false).
Proof.
  intros Hok Hid. simpl.
  destruct (fetchLayout_calls url name store) as [[[reason Hfail] _] | [_ [layout Hcalls]]];
    [congruence|].
  destruct (fetchLayout url name store) as [[o calls] store1]. simpl in *. subst calls.
  simpl. split_and!; [done..|].
  unfold selectLayout. destruct (unappliedUrlState s) as [u|]; simpl in *; [|done].
  rewrite Hid. simpl. destruct (layoutId u) as [l|]; [|done].
  simpl in Hid. by rewrite Hid.
Qed.

(** X14. Nothing is applied before its gate opens. In a render where
    the data source needs a user and none is signed in, [selectSource]
    is not called; where the player is not present, [seekPlayback] is
    not called; and where a layout id is waiting for the player of a
    source that needs a user, the layout effect makes no call at all,
    not even the fetch of the layout URL or of the preset. *)
Theorem nothing_applied_before_its_gate (ctx : Context) (source layout seeking : bool)
    (s : State) :
  (currentUserRequired ctx = true → currentUser ctx = None →
   count is_selectSource (render_calls new_URL ctx source layout seeking s) = 0) ∧
  (playerPresence ctx ≠ PRESENT →
   count is_seek (render_calls new_URL ctx source layout seeking s) = 0) ∧
  (currentUserRequired ctx = true → playerPresence ctx ≠ PRESENT →
   truthy (unappliedUrlState s ≫= layoutId) = true →
   selectLayout new_URL ctx s = ([], false)).
Proof.
  split_and!.
  - intros Hreq Huser. unfold render_calls. rewrite !count_app.
    assert (Hload : loadDataSource ctx s = []).
    { destruct (loadDataSource_cases ctx s)
        as [-> | (u & src & _ & _ & _ & [Hn | [? Hsome]] & _)]; [done|congruence..]. }
    rewrite Hload.
    assert (Hseek : count is_selectSource (seekToTime ctx s) = 0).
    { by destruct (seekToTime_cases ctx s) as [-> | (t & _ & _ & _ & ->)]. }
    destruct source, layout, seeking; simpl;
      rewrite ?Hseek, ?(count_selectLayout is_selectSource) by done; done.
  - intros Hpresence. unfold render_calls. rewrite !count_app.
    assert (Hseek : seekToTime ctx s = []).
    { by destruct (seekToTime_cases ctx s) as [-> | (t & _ & _ & ? & _)]. }
    rewrite Hseek.
    assert (Hload : count is_seek (loadDataSource ctx s) = 0).
    { by destruct (loadDataSource_cases ctx s) as [-> | (u & src & _ & _ & _ & _ & ->)]. }
    destruct source, layout, seeking; simpl;
      rewrite ?Hload, ?(count_selectLayout is_seek) by done; done.
  - intros Hreq Hpresence Hid. unfold selectLayout.
    rewrite Hid, Hreq. simpl. by rewrite bool_decide_true by done.
Qed.




(** X16. When the fetch is rejected or its response is not ok,
    [fetchLayout] rejects with the string "Could not load the layout
    from <url>"; when the body is not JSON, with "<url> does not
    contain valid layout JSON". The original reason is dropped, the
    layout manager is not called and no state setter is called. *)
Theorem fetchLayout_fetch_errors (url : UrlArg) (n : string) (store : Store) :
  ((∃ reason, fetch (url_text url) = Rejected reason) ∨
   (∃ res, fetch (url_text url) = Resolved res ∧ ok res = false) →
   fetchLayout url n store =
     (Rejected (thrown_string ("Could not load the layout from " +:+ url_text url)),
      [], store)) ∧
  (∀ res reason,
     fetch (url_text url) = Resolved res → ok res = true → json res = Rejected reason →
     fetchLayout url n store =
       (Rejected (thrown_string (url_text url +:+ " does not contain valid layout JSON")),
        [], store)).
Proof.
  unfold DeepLink.fetchLayout. split.
  - intros [[reason ->] | (res & -> & ->)]; done.
  - intros res reason -> -> ->. done.
Qed.

End HookFacts.

(** ** Runs of the hook in the concrete environment *)

#[local] Abbreviation demo_run fetch events s store :=
  (hook_run demo_new_URL fetch list_getLayouts list_saveNewLayout list_updateLayout
     events s store).

(** The whole life of a deep link: nothing happens while the user
    and the player are awaited; then the source, the layout id, the
    time and the layout URL are applied; when the layout has been
    loaded, the preset is requested. *)
Example demo_run_calls :
  (demo_run working_fetch demo_events (initial ctx_waiting) []).1.1 =
    [ selectSource "foxglove-data-platform" (Some {[ "eventId" := "event-1" ]});
      selectEvent (Some "event-1");
      setUnappliedUrlState without_source;
      setSelectedLayoutId "layout-1";
      setUnappliedUrlState without_layoutId;
      setFetchingLayout true;
      fetchLayout_called (url_object demo_url) "demo.json";
      seek {| sec := 5; nsec := 0 |};
      setUnappliedUrlState without_time;
      setSelectedLayoutId "id-of-demo.json";
      setUnappliedUrlState without_layoutUrl;
      setFetchingLayout false;
      fetchLayout_called (url_string "config.json") "Preset" ].
Proof. reflexivity. Qed.

Lemma source_selected_at_most_once_witness :
  count is_selectSource (demo_run working_fetch demo_events (initial ctx_waiting) []).1.1 = 1 ∧
  count is_selectSource (demo_run working_fetch demo_events (initial ctx_waiting) []).1.1 ≤ 1.
Proof.
  split; [reflexivity|].
  exact (proj1 (source_selected_at_most_once demo_new_URL working_fetch list_getLayouts
                  list_saveNewLayout list_updateLayout demo_events (initial ctx_waiting) [])).
Defined.

Lemma seek_called_at_most_once_witness :
  count is_seek (demo_run working_fetch demo_events fetching_state []).1.1 = 0.
Proof.
  exact (proj2 (seek_called_at_most_once demo_new_URL working_fetch list_getLayouts
                  list_saveNewLayout list_updateLayout demo_events fetching_state [])
               eq_refl).
Defined.

Lemma layout_fetch_not_retried_after_failure_witness :
  let r := demo_run failing_fetch
             [ fetchLayout_settled (url_object demo_url) "demo.json";
               rendered ctx_ready true true true; rendered ctx_waiting true true true ]
             fetching_state [] in
  count is_fetchLayout_called r.1.1 = 0 ∧
  fetchingLayout r.1.2 = true ∧
  unappliedUrlState r.1.2 ≫= layoutUrl = Some (href demo_url).
Proof.
  exact (layout_fetch_not_retried_after_failure demo_new_URL failing_fetch list_getLayouts
           list_saveNewLayout list_updateLayout (url_object demo_url) "demo.json"
           [ rendered ctx_ready true true true; rendered ctx_waiting true true true ]
           fetching_state [] eq_refl (ex_intro _ _ eq_refl) eq_refl).
Defined.

Lemma preset_requested_after_layout_loaded_witness :
  let s' := (hook_step demo_new_URL working_fetch list_getLayouts list_saveNewLayout
               list_updateLayout (fetchLayout_settled (url_object demo_url) "demo.json")
               fetching_state []).1.2 in
  fetchingLayout s' = false ∧
  unappliedUrlState s' ≫= layoutUrl = None ∧
  selectLayout demo_new_URL ctx_ready s' =
    ([ fetchLayout_called (url_string "config.json") "Preset" ], false).
Proof.
  exact (preset_requested_after_layout_loaded demo_new_URL working_fetch list_getLayouts
           list_saveNewLayout list_updateLayout (url_object demo_url) "demo.json"
           ctx_ready fetching_state [] eq_refl eq_refl).
Defined.

Lemma nothing_applied_before_its_gate_witness :
  count is_selectSource
    (render_calls demo_new_URL ctx_waiting true true true (initial ctx_waiting)) = 0 ∧
  count is_seek
    (render_calls demo_new_URL ctx_waiting true true true (initial ctx_waiting)) = 0 ∧
  selectLayout demo_new_URL ctx_waiting (initial ctx_waiting) = ([], false).
Proof.
  destruct (nothing_applied_before_its_gate demo_new_URL ctx_waiting true true true
              (initial ctx_waiting)) as (Hsource & Hseek & Hlayout).
  split_and!.
  - exact (Hsource eq_refl eq_refl).
  - apply Hseek. discriminate.
  - apply Hlayout; [reflexivity | discriminate | reflexivity].
Defined.


Lemma fetchLayout_fetch_errors_witness :
  fetchLayout failing_fetch list_getLayouts list_saveNewLayout list_updateLayout
    (url_object demo_url) "demo.json" demo_layouts =
    (Rejected (thrown_string
       "Could not load the layout from https://example.com/layouts/shared/demo.json"),
     [], demo_layouts).
Proof.
  refine (proj1 (fetchLayout_fetch_errors failing_fetch list_getLayouts list_saveNewLayout
                   list_updateLayout (url_object demo_url) "demo.json" demo_layouts) _).
  right. eexists. split; reflexivity.
Defined.

End DeepLinkFacts.
